(** * SimTKmath: the CMA-ES optimizer wrapper and its test objective systems

    A shallow embedding of

    - [SimTKmath/tests/OptimizerSystems.h]  (module [OptimizerSystems]), and
    - [SimTKmath/Optimizers/src/CMAESOptimizer.cpp]  (module [CMAESOptimizer]).

    Conventions.

    - [SimTK::Real] / [double] is idealised as the field [R] of real numbers:
      no rounding, no infinities and no NaN.
    - A [SimTK::Vector] or a [double*] array is a [list R]; an element read
      [x[i]] is the partial lookup [x !! i], so that an access outside the
      array is visible as an undefined outcome instead of a made-up value.
    - [int] values are integers [Z]; the one place where the source converts
      an [int] to [unsigned int] writes the wrap-around out ([to_unsigned]).
    - Loop counters that only range over [0 .. bound) are natural numbers. *)

From Stdlib Require Import Reals Lra Lia ZArith.
From stdpp Require Import base option list strings gmap.

(** ** Numbers and vectors *)

Abbreviation Real := R.
Abbreviation Vector := (list R).

Definition INT_MAX : Z := 2 ^ 31 - 1.

(** Conversion of an [int] to [unsigned int] (32 bits). *)
Definition to_unsigned (z : Z) : Z := z mod 2 ^ 32.

(** The line feed that ends the lines [printf] writes. *)
Definition newline : string := String (Ascii.ascii_of_nat 10) EmptyString.

(** The comparisons of the source as boolean tests. *)
Definition Rltb (a b : R) : bool := if Rlt_dec a b then true else false.
Definition Rleb (a b : R) : bool := if Rle_dec a b then true else false.
Definition Req_bool (a b : R) : bool := if Req_dec_T a b then true else false.

(** [for (i = start; i < start + count; ++i) s = body(i, s)] in any monad. *)
Fixpoint for_range {M : Type → Type} `{!MBind M, !MRet M} {St : Type}
    (start count : nat) (body : nat → St → M St) (s : St) : M St :=
  match count with
  | O => mret s
  | S count' => s' ← body start s; for_range (S start) count' body s'
  end.

(** Mathematical notation used on the specification side only:
    [x _[ i ]] is the i-th coordinate and [Rsum g k] is
    [g 0 + g 1 + ... + g (k-1)]. *)
Definition coord (x : Vector) (i : nat) : R := nth i x 0%R.
Notation "x _[ i ]" := (coord x i) (at level 1, format "x _[ i ]").

Fixpoint Rsum (g : nat → R) (k : nat) : R :=
  match k with
  | O => 0%R
  | S k' => (Rsum g k' + g k')%R
  end.

(** ** tests/OptimizerSystems.h *)

Module OptimizerSystems.
Local Open Scope R_scope.

(** The part of [SimTK::OptimizerSystem] that the sources use: the number of
    parameters (an [int]), the optional box limits and the virtual objective
    function.  The objective receives [f] by reference, hence it maps the
    incoming value of [f] to the returned status and the outgoing value;
    [None] stands for an access outside [x]. *)
Record OptimizerSystem : Type := {
  getNumParameters : Z;
  getHasLimits : bool;
  lowerLimits : Vector;
  upperLimits : Vector;
  objectiveFunc : Vector → bool → Real → option (Z * Real)
}.

(** [class TestOptimizerSystem : public OptimizerSystem] with its two pure
    virtual members. *)
Record TestOptimizerSystem : Type := {
  system :> OptimizerSystem;
  optimalValue : Real;
  optimalParameters : Vector
}.

(** [Cigtab::objectiveFunc] *)
Definition Cigtab_objectiveFunc (numParameters : Z)
    (x : Vector) (new_parameters : bool) (f : Real) : option (Z * Real) :=
  x0 ← x !! 0%nat;
  x1 ← x !! 1%nat;
  let f := 1e4 * x0 * x0 + 1e-4 * x1 * x1 in
  f ← for_range 0 (Z.to_nat (to_unsigned numParameters))
        (λ i f, xi ← x !! i; Some (f + xi * xi)) f;
  Some (0%Z, f).

Definition Cigtab (nParameters : Z) : TestOptimizerSystem := {|
  system := {|
    getNumParameters := nParameters;
    getHasLimits := false;
    lowerLimits := [];
    upperLimits := [];
    objectiveFunc := Cigtab_objectiveFunc nParameters |};
  optimalValue := 0;
  optimalParameters := replicate (Z.to_nat nParameters) 0
|}.

(** [DropWave::objectiveFunc]; the divisor is named so that it can be
    talked about. *)
Definition DropWave_divisor (dotprod : Real) : Real := 0.5 * dotprod + 2.

Definition DropWave_objectiveFunc
    (x : Vector) (new_parameters : bool) (f : Real) : option (Z * Real) :=
  x0 ← x !! 0%nat;
  x1 ← x !! 1%nat;
  let dotprod := x0 * x0 + x1 * x1 in
  let f := (- (1 + cos (12 * sqrt dotprod))) / DropWave_divisor dotprod in
  Some (0%Z, f).

Definition DropWave : TestOptimizerSystem := {|
  system := {|
    getNumParameters := 2;
    getHasLimits := true;
    lowerLimits := Ropp <$> replicate 2 5.12;
    upperLimits := replicate 2 5.12;
    objectiveFunc := DropWave_objectiveFunc |};
  optimalValue := -1;
  optimalParameters := replicate 2 0
|}.

(** [Rosenbrock::objectiveFunc].  The loop bound [getNumParameters() - 1] is
    an [int] compared with the [unsigned int] counter, hence converted. *)
Definition Rosenbrock_objectiveFunc (numParameters : Z)
    (x : Vector) (new_parameters : bool) (f : Real) : option (Z * Real) :=
  f ← for_range 0 (Z.to_nat (to_unsigned (numParameters - 1)))
        (λ i f,
           xi ← x !! i;
           xi1 ← x !! (i + 1)%nat;
           Some (f + (100 * (xi1 - xi * xi) ^ 2 + (xi - 1) ^ 2))) f;
  Some (0%Z, f).

Definition Rosenbrock (nParameters : Z) : TestOptimizerSystem := {|
  system := {|
    getNumParameters := nParameters;
    getHasLimits := false;
    lowerLimits := [];
    upperLimits := [];
    objectiveFunc := Rosenbrock_objectiveFunc nParameters |};
  optimalValue := 0;
  optimalParameters := replicate (Z.to_nat nParameters) 1
|}.

(** The Rosenbrock function as the literature writes it. *)
Definition rosenbrock_term (x : Vector) (i : nat) : R :=
  100 * (x _[i + 1] - x _[i] ^ 2) ^ 2 + (x _[i] - 1) ^ 2.

Definition rosenbrock (n : nat) (x : Vector) : R :=
  Rsum (rosenbrock_term x) (n - 1).

(** [Ackley::objectiveFunc], with the members [a(20)], [b(0.2)] and
    [c(2 * Pi)] the constructor sets.  [n] is a [Real]; the [int] counter
    runs while [i < n].  [Vector::normRMS] belongs to SimTKcommon, whose
    source is not among the sources embedded here: it is a parameter. *)
Definition Ackley_objectiveFunc (normRMS : Vector → Real) (numParameters : Z)
    (x : Vector) (new_parameters : bool) (f : Real) : option (Z * Real) :=
  let a := 20 in
  let b := 0.2 in
  let c := 2 * PI in
  let n := IZR numParameters in
  sumcos ← for_range 0 (Z.to_nat numParameters)
             (λ i sumcos, xi ← x !! i; Some (sumcos + cos (c * xi))) 0;
  let f := (- a) * exp ((- b) * normRMS x) - exp (sumcos / n) + a + exp 1 in
  Some (0%Z, f).

Definition Ackley (normRMS : Vector → Real) (nParameters : Z)
    : TestOptimizerSystem := {|
  system := {|
    getNumParameters := nParameters;
    getHasLimits := true;
    lowerLimits := Ropp <$> replicate (Z.to_nat nParameters) 32.768;
    upperLimits := replicate (Z.to_nat nParameters) 32.768;
    objectiveFunc := Ackley_objectiveFunc normRMS nParameters |};
  optimalValue := 0;
  optimalParameters := replicate (Z.to_nat nParameters) 0
|}.

(** [Easom::objectiveFunc] *)
Definition Easom_objectiveFunc
    (x : Vector) (new_parameters : bool) (f : Real) : option (Z * Real) :=
  x0 ← x !! 0%nat;
  x1 ← x !! 1%nat;
  let f := (- cos x0) * cos x1 * exp (- (x0 - PI) ^ 2 - (x1 - PI) ^ 2) in
  Some (0%Z, f).

Definition Easom : TestOptimizerSystem := {|
  system := {|
    getNumParameters := 2;
    getHasLimits := true;
    lowerLimits := Ropp <$> replicate 2 100;
    upperLimits := replicate 2 100;
    objectiveFunc := Easom_objectiveFunc |};
  optimalValue := -1;
  optimalParameters := replicate 2 PI
|}.

End OptimizerSystems.

(** ** Optimizers/src/CMAESOptimizer.cpp *)

Module CMAESOptimizer.
Import OptimizerSystems.

(** [int(double)]: conversion by truncation toward zero. *)
Definition int_of_double (r : R) : Z :=
  if Rlt_dec r 0 then Zceil r else Zfloor r.

(** *** What the optimizer inherits from [Optimizer::OptimizerRep] *)

(** The members of the base class that the source reads: the system, the
    protected members [maxIterations], [convergenceTolerance] and
    [diagnosticsLevel], and the three maps of advanced options
    ([std::map<std::string, T>]). *)
Record OptimizerRep : Type := {
  getOptimizerSystem : OptimizerSystem;
  maxIterations : Z;
  convergenceTolerance : Real;
  diagnosticsLevel : Z;
  advancedIntOptions : gmap string Z;
  advancedRealOptions : gmap string R;
  advancedBoolOptions : gmap string bool
}.

(** Modelled from the spec: [getAdvancedIntOption], [getAdvancedRealOption]
    and [getAdvancedBoolOption] are members of [OptimizerRep], whose source is
    not among the sources embedded here.  "Unspecified options take defaults": the
    getter reports whether the option was set and overwrites the caller's
    variable only in that case. *)
Definition getAdvancedOption {T : Type} (options : gmap string T)
    (option : string) (value : T) : bool * T :=
  match options !! option with
  | Some v => (true, v)
  | None => (false, value)
  end.

(** Exceptions.  The first three are those of [SimTK::Exception] that the
    checking macros raise.  The last two are the fatal run-level errors that
    code outside this file raises (specification, section 7):
    [ConfigError], "reported at init, fatal", comes from the library when it
    refuses its settings, and [ObjectiveFailure], "callback returned
    non-zero -- fatal", from the wrapper of the objective callback. *)
Inductive Exception : Type :=
| ValueOutOfRange (valueName : string) (lowerBound value upperBound : Z)
    (where_ : string)
| ValueWasNegative (valueName : string) (value : Z) (where_ : string)
| APIArgcheckFailed (className methodName : string)
    (i : nat) (xi lower upper : Real)
| ConfigError
| ObjectiveFailure (status : Z).

(** How a call ends: it returns, it throws, it reads or writes outside an
    array (undefined behaviour), or the iteration budget of the model ran
    out before a loop finished. *)
Inductive outcome (A : Type) : Type :=
| Normal (a : A)
| Throw (e : Exception)
| Undefined
| Timeout.
Arguments Normal {A} a.
Arguments Throw {A} e.
Arguments Undefined {A}.
Arguments Timeout {A}.

(** *** The c-cmaes library *)

(** The fields of [readpara_t] ([evo.sp]) that the optimizer assigns, and
    the assignments to them. *)
Record readpara_t : Type := {
  stopMaxIter : Z;
  stopTolFun : Real;
  stopMaxFunEvals : Z;
  updateCmode_maxtime : Real
}.

Definition set_stopMaxIter (v : Z) (p : readpara_t) : readpara_t :=
  {| stopMaxIter := v; stopTolFun := stopTolFun p;
     stopMaxFunEvals := stopMaxFunEvals p;
     updateCmode_maxtime := updateCmode_maxtime p |}.

Definition set_stopTolFun (v : Real) (p : readpara_t) : readpara_t :=
  {| stopMaxIter := stopMaxIter p; stopTolFun := v;
     stopMaxFunEvals := stopMaxFunEvals p;
     updateCmode_maxtime := updateCmode_maxtime p |}.

Definition set_stopMaxFunEvals (v : Z) (p : readpara_t) : readpara_t :=
  {| stopMaxIter := stopMaxIter p; stopTolFun := stopTolFun p;
     stopMaxFunEvals := v;
     updateCmode_maxtime := updateCmode_maxtime p |}.

Definition set_updateCmode_maxtime (v : Real) (p : readpara_t) : readpara_t :=
  {| stopMaxIter := stopMaxIter p; stopTolFun := stopTolFun p;
     stopMaxFunEvals := stopMaxFunEvals p;
     updateCmode_maxtime := v |}.

(** [cmaes_t]: the public parameter block [sp] and the rest of the engine
    state (distribution, random generator, population, best-ever record),
    whose representation belongs to the library. *)
Record cmaes_state (engine_t : Type) : Type := {
  sp : readpara_t;
  engine : engine_t
}.
Arguments sp {engine_t} _.
Arguments engine {engine_t} _.

Definition update_sp {engine_t : Type} (f : readpara_t → readpara_t)
    (evo : cmaes_state engine_t) : cmaes_state engine_t :=
  {| sp := f (sp evo); engine := engine evo |}.

(** The CMA-ES engine is a parameter of the development: every library
    function is a function of the state.  The pointer that
    [cmaes_SamplePopulation] and [cmaes_ReSampleSingle] return designates the
    population stored inside the state, which [rgrgx] reads; the array
    returned by [cmaes_init_final] is the caller's [funvals].  The
    coordinates of the population are numbers, as the specification asks of
    the engine ("ConditionCov must fire before NaNs appear").

    Modelled from the spec: "invalid values fail at init".  The library
    takes the settings up when the initialisation is finalised ("Once we've
    updated settings in readpara_t, finalize the initialization", line 225),
    so [cmaes_init_final] is partial: [None] stands for the library refusing
    the state it is given, and nothing is assumed about which states it
    refuses. *)
Class cmaes_interface : Type := {
  cmaes_engine : Type;
  cmaes_init_para :
    Z → Vector → Vector → Z → Z → string → cmaes_state cmaes_engine;
  cmaes_init_final :
    cmaes_state cmaes_engine → option (cmaes_state cmaes_engine * list Real);
  cmaes_resume_distribution :
    cmaes_state cmaes_engine → string → cmaes_state cmaes_engine;
  cmaes_SayHello : cmaes_state cmaes_engine → string;
  cmaes_TestForTermination : cmaes_state cmaes_engine → option string;
  cmaes_SamplePopulation : cmaes_state cmaes_engine → cmaes_state cmaes_engine;
  cmaes_ReSampleSingle :
    cmaes_state cmaes_engine → nat → cmaes_state cmaes_engine;
  rgrgx : cmaes_state cmaes_engine → list Vector;
  cmaes_UpdateDistribution :
    cmaes_state cmaes_engine → list Real → cmaes_state cmaes_engine;
  cmaes_Get : cmaes_state cmaes_engine → string → Real;
  cmaes_GetPtr : cmaes_state cmaes_engine → string → Vector
}.
Abbreviation cmaes_t := (cmaes_state cmaes_engine).

(** Modelled from the spec: the contract of the sampler, whose source is not
    part of the embedded files.  "[resampleOne(state, i)]: redraws x_i in
    place": the other offspring and the population size stay as they are. *)
Class cmaes_contract `{cmaes_interface} : Prop := {
  ReSampleSingle_other (evo : cmaes_t) (i k : nat) :
    k ≠ i → rgrgx (cmaes_ReSampleSingle evo i) !! k = rgrgx evo !! k;
  ReSampleSingle_lambda (evo : cmaes_t) (i : nat) :
    cmaes_Get (cmaes_ReSampleSingle evo i) "lambda" = cmaes_Get evo "lambda"
}.

Section Optimizer.
Context `{cmaes_interface}.

(** The calls that leave the optimizer, in the order they are made. *)
Inductive Event : Type :=
| CallInitPara (dimension : Z) (xstart stddev : Vector) (seed lambda : Z)
    (input_parameter_filename : string)
| CallInitFinal (evo : cmaes_t)
| CallResumeDistribution (filename : string)
| Printf (text : string)
| CallSamplePopulation
| CallReSampleSingle (i : nat)
| CallObjectiveFunc (x : Vector) (status : Z)
| CallUpdateDistribution (evo : cmaes_t) (funvals : list Real)
| CallWriteToFile (key filename : string)
| CallExit.

(** Computations carry the trace of calls made so far. *)
Definition M (A : Type) : Type := list Event → outcome A * list Event.

#[global] Instance M_ret : MRet M := λ A a tr, (Normal a, tr).
#[global] Instance M_bind : MBind M := λ A B k m tr,
  match m tr with
  | (Normal a, tr') => k a tr'
  | (Throw e, tr') => (Throw e, tr')
  | (Undefined, tr') => (Undefined, tr')
  | (Timeout, tr') => (Timeout, tr')
  end.

Definition emit (e : Event) : M unit := λ tr, (Normal (), tr ++ [e]).

(** A call that returns a value: the call is recorded and its value
    handed on, in one step. *)
Definition call {A : Type} (e : Event) (a : A) : M A :=
  λ tr, (Normal a, tr ++ [e]).
Definition throw {A : Type} (e : Exception) : M A := λ tr, (Throw e, tr).
Definition undefined {A : Type} : M A := λ tr, (Undefined, tr).
Definition timeout {A : Type} : M A := λ tr, (Timeout, tr).

(** An array access: undefined outside the array. *)
Definition read {A : Type} (o : option A) : M A :=
  match o with
  | Some a => mret a
  | None => undefined
  end.

Definition write (v : list Real) (i : nat) (a : Real) : M (list Real) :=
  if decide (i < length v)%nat then mret (<[i := a]> v) else undefined.

(** Modelled from the spec: the checking macros of SimTKcommon
    ([SimTK_VALUECHECK_ALWAYS], [SimTK_VALUECHECK_NONNEG_ALWAYS],
    [SimTK_APIARGCHECK4_ALWAYS]) are not among the sources embedded here.  They
    throw when their condition fails ("reported at init, fatal"). *)
Definition SimTK_VALUECHECK_ALWAYS (lb val ub : Z) (valName where_ : string)
    : M unit :=
  if decide (lb ≤ val ∧ val ≤ ub)%Z then mret ()
  else throw (ValueOutOfRange valName lb val ub where_).

Definition SimTK_VALUECHECK_NONNEG_ALWAYS (val : Z) (valName where_ : string)
    : M unit :=
  if decide (0 ≤ val)%Z then mret ()
  else throw (ValueWasNegative valName val where_).

Definition SimTK_APIARGCHECK4_ALWAYS (cond : bool)
    (className methodName : string) (i : nat) (xi lower upper : Real)
    : M unit :=
  if cond then mret ()
  else throw (APIArgcheckFailed className methodName i xi lower upper).

(** The calls into the library whose result the optimizer goes on with.
    Each records the call with the very arguments to which the library
    function is applied. *)
Definition call_cmaes_init_para (dimension : Z) (xstart stddev : Vector)
    (seed lambda : Z) (input_parameter_filename : string) : M cmaes_t :=
  call (CallInitPara dimension xstart stddev seed lambda
          input_parameter_filename)
       (cmaes_init_para dimension xstart stddev seed lambda
          input_parameter_filename).

Definition call_cmaes_init_final (evo : cmaes_t) : M (cmaes_t * list Real) :=
  r ← call (CallInitFinal evo) (cmaes_init_final evo);
  match r with
  | Some r => mret r
  | None => throw ConfigError
  end.

Definition call_cmaes_resume_distribution (evo : cmaes_t) (filename : string)
    : M cmaes_t :=
  call (CallResumeDistribution filename)
       (cmaes_resume_distribution evo filename).

Definition call_cmaes_SamplePopulation (evo : cmaes_t) : M cmaes_t :=
  call CallSamplePopulation (cmaes_SamplePopulation evo).

Definition call_cmaes_ReSampleSingle (evo : cmaes_t) (i : nat) : M cmaes_t :=
  call (CallReSampleSingle i) (cmaes_ReSampleSingle evo i).

Definition call_cmaes_UpdateDistribution (evo : cmaes_t)
    (funvals : list Real) : M cmaes_t :=
  call (CallUpdateDistribution evo funvals)
       (cmaes_UpdateDistribution evo funvals).

Context (this : OptimizerRep).

Local Abbreviation sys := (getOptimizerSystem this).

(** The call of the system's objective function: [f] is passed by
    reference, and the call is recorded with the point and the status that
    comes back. *)
Definition call_objectiveFunc (parameters : Vector) (new_parameters : bool)
    (f : Real) : M (Z * Real) :=
  r ← read (objectiveFunc sys parameters new_parameters f);
  call (CallObjectiveFunc parameters r.1) r.

(** [SimTK_CMAES_PRINT] and [SimTK_CMAES_FILE]: run the commands when bit 0,
    respectively bit 1, of [diagnosticsLevel] is set. *)
Definition SimTK_CMAES_PRINT (cmds : M unit) : M unit :=
  if Z.testbit (diagnosticsLevel this) 0 then cmds else mret ().

Definition SimTK_CMAES_FILE (cmds : M unit) : M unit :=
  if Z.testbit (diagnosticsLevel this) 1 then cmds else mret ().

(** [CMAESOptimizer::CMAESOptimizer] *)
Definition CMAESOptimizer_ctor : M unit :=
  SimTK_VALUECHECK_ALWAYS 2 (getNumParameters sys) INT_MAX
    "nParameters" "CMAESOptimizer".

(** [CMAESOptimizer::checkInitialPointIsFeasible] *)
Definition checkInitialPointIsFeasible (x : Vector) : M unit :=
  if getHasLimits sys then
    for_range 0 (Z.to_nat (getNumParameters sys))
      (λ i _,
         lo ← read (lowerLimits sys !! i);
         xi ← read (x !! i);
         hi ← read (upperLimits sys !! i);
         SimTK_APIARGCHECK4_ALWAYS (Rleb lo xi && Rleb xi hi)
           "CMAESOptimizer" "checkInitialPointIsFeasible" i xi lo hi) ()
  else mret ().

(** [CMAESOptimizer::processSettingsAfterCMAESInit] *)
Definition processSettingsAfterCMAESInit (evo : cmaes_t) : M cmaes_t :=
  let evo := update_sp (set_stopMaxIter (maxIterations this)) evo in
  let evo := update_sp (set_stopTolFun (convergenceTolerance this)) evo in
  evo ←
    (let '(found, stopMaxFunEvals_) :=
       getAdvancedOption (advancedIntOptions this) "stopMaxFunEvals" 0%Z in
     if found then
       _ ← SimTK_VALUECHECK_NONNEG_ALWAYS stopMaxFunEvals_ "stopMaxFunEvals"
             "CMAESOptimizer::processSettingsAfterCMAESInit";
       mret (update_sp (set_stopMaxFunEvals stopMaxFunEvals_) evo)
     else mret evo);
  let '(found, maxtime) :=
    getAdvancedOption (advancedRealOptions this)
      "maxTimeFractionForEigendecomposition" 0%R in
  if found then mret (update_sp (set_updateCmode_maxtime maxtime) evo)
  else mret evo.

(** [CMAESOptimizer::init], block "lambda". *)
Definition init_numsamples : Z :=
  let n := getNumParameters sys in
  let numsamples := 0%Z in
  let '(_, numsamples) :=
    getAdvancedOption (advancedIntOptions this) "lambda" numsamples in
  if (numsamples =? 0)%Z then (4 + int_of_double (3 * ln (IZR n)))%Z
  else numsamples.

(** [CMAESOptimizer::init], block "sigma". *)
Definition init_stepsize : Real :=
  let stepsize := 0%R in
  let '(_, stepsize) :=
    getAdvancedOption (advancedRealOptions this) "sigma" stepsize in
  if Req_bool stepsize 0.0 then 0.1%R else stepsize.

(** [Vector stepsizeArray(n)] and the loop that fills it.  The entries of a
    fresh [Vector] are unspecified (0 here); the loop overwrites each. *)
Definition init_stepsizeArray : option Vector :=
  let n := Z.to_nat (getNumParameters sys) in
  for_range 0 n
    (λ i stepsizeArray,
       if decide (i < length stepsizeArray)%nat
       then Some (<[i := init_stepsize]> stepsizeArray) else None)
    (replicate n 0%R).

(** [CMAESOptimizer::init] *)
Definition init (results : Vector) : M (cmaes_t * list Real) :=
  let n := getNumParameters sys in
  let numsamples := init_numsamples in
  stepsizeArray ← read init_stepsizeArray;
  let seed := 0%Z in
  let '(found, seed) :=
    getAdvancedOption (advancedIntOptions this) "seed" seed in
  _ ← (if found then
         SimTK_VALUECHECK_NONNEG_ALWAYS seed "seed"
           "CMAESOptimizer::processSettingsBeforeCMAESInit"
       else mret ());
  evo ← call_cmaes_init_para n results stepsizeArray seed numsamples
          "writeonly";
  evo ← processSettingsAfterCMAESInit evo;
  call_cmaes_init_final evo.

(** Modelled from the spec: [OptimizerRep::objectiveFuncWrapper] is not
    among the sources embedded here.
    "[evaluate(n, x, isNewPoint) -> (status, f)].  Status 0 = success;
    non-zero aborts the run" and "ObjectiveFailure: callback returned
    non-zero -- fatal": the wrapper views the [n] doubles at [x] as a
    [Vector], calls the system's objective on it with [f] passed by
    reference, and raises the fatal error when the status that comes back
    is not 0. *)
Definition objectiveFuncWrapper (n : Z) (x : list Real) (new_parameters : bool)
    (f : Real) : M (Z * Real) :=
  parameters ← (if decide (Z.to_nat n ≤ length x)%nat
                then mret (take (Z.to_nat n) x) else undefined);
  '(status, f) ← call_objectiveFunc parameters new_parameters f;
  if (status =? 0)%Z then mret (status, f)
  else throw (ObjectiveFailure status).

(** [optimize], lines 105-112: the scan of the coordinates of one offspring.
    It yields [true] when the scan completes, and [false] when it stops at a
    coordinate outside the limits. *)
Fixpoint scan_offspring (j count : nat) (x lowerLimits upperLimits : Vector)
    : option bool :=
  match count with
  | O => Some true
  | S count' =>
      xj ← x !! j;
      lo ← lowerLimits !! j;
      if Rltb xj lo then Some false
      else
        hi ← upperLimits !! j;
        if Rltb hi xj then Some false
        else scan_offspring (S j) count' x lowerLimits upperLimits
  end.

(** [optimize], lines 102-113: [while (!feasible)] for offspring [i]. *)
Fixpoint resample_until_feasible (fuel : nat) (evo : cmaes_t) (i : nat)
    : M cmaes_t :=
  match fuel with
  | O => timeout
  | S fuel' =>
      let n := getNumParameters sys in
      x ← read (rgrgx evo !! i);
      feasible ← read (scan_offspring 0 (Z.to_nat n) x
                         (lowerLimits sys) (upperLimits sys));
      if feasible : bool then mret evo
      else
        evo ← call_cmaes_ReSampleSingle evo i;
        resample_until_feasible fuel' evo i
  end.

(** [optimize], lines 101-114: the loop over the offspring.  The bound
    [cmaes_Get(&evo, "lambda")] is a [double] read anew in every round. *)
Fixpoint resample_population (fuel budget : nat) (evo : cmaes_t) (i : nat)
    : M cmaes_t :=
  match fuel with
  | O => timeout
  | S fuel' =>
      if Rltb (INR i) (cmaes_Get evo "lambda") then
        evo ← resample_until_feasible budget evo i;
        resample_population fuel' budget evo (S i)
      else mret evo
  end.

(** [optimize], lines 119-121: evaluation of the offspring.  The value the
    wrapper returns is not used, and no exception is caught. *)
Fixpoint evaluate_population (fuel : nat) (evo : cmaes_t) (i : nat)
    (funvals : list Real) : M (list Real) :=
  match fuel with
  | O => timeout
  | S fuel' =>
      if Rltb (INR i) (cmaes_Get evo "lambda") then
        let n := getNumParameters sys in
        x ← read (rgrgx evo !! i);
        f ← read (funvals !! i);
        '(_, f) ← objectiveFuncWrapper n x true f;
        funvals ← write funvals i f;
        evaluate_population fuel' evo (S i) funvals
      else mret funvals
  end.

(** [optimize], lines 91-125: the body of the generation loop. *)
Definition generation (fuel : nat) (evo : cmaes_t) (funvals : list Real)
    : M (cmaes_t * list Real) :=
  evo ← call_cmaes_SamplePopulation evo;
  evo ← (if getHasLimits sys then resample_population fuel fuel evo 0
         else mret evo);
  funvals ← evaluate_population fuel evo 0 funvals;
  evo ← call_cmaes_UpdateDistribution evo funvals;
  mret (evo, funvals).

(** [optimize], lines 89-129: [while (!cmaes_TestForTermination(&evo))]. *)
Fixpoint generations (fuel budget : nat) (evo : cmaes_t)
    (funvals : list Real) : M (cmaes_t * list Real) :=
  match fuel with
  | O => timeout
  | S fuel' =>
      match cmaes_TestForTermination evo with
      | None =>
          '(evo, funvals) ← generation budget evo funvals;
          generations fuel' budget evo funvals
      | Some _ => mret (evo, funvals)
      end
  end.

(** [optimize], lines 131-148: "Wrap up". *)
Definition wrap_up (evo : cmaes_t) (results : Vector) : M (Real * Vector) :=
  let n := getNumParameters sys in
  _ ← SimTK_CMAES_PRINT
        (emit (Printf ("Stop:" +:+ newline
                       +:+ default EmptyString (cmaes_TestForTermination evo)
                       +:+ newline)));
  let optx := cmaes_GetPtr evo "xbestever" in
  results ← for_range 0 (Z.to_nat n)
              (λ i results, xi ← read (optx !! i); write results i xi)
              results;
  let f := cmaes_Get evo "fbestever" in
  _ ← SimTK_CMAES_FILE (emit (CallWriteToFile "resume" "resumecmaes.dat"));
  _ ← SimTK_CMAES_FILE (emit (CallWriteToFile "all" "allcmaes.dat"));
  _ ← emit CallExit;
  mret (f, results).

(** [optimize], lines 64-129: everything between the feasibility check and
    the wrap-up. *)
Definition run (fuel : nat) (results : Vector) : M (cmaes_t * list Real) :=
  '(evo, funvals) ← init results;
  let isresume := false in
  let '(_, isresume) :=
    getAdvancedOption (advancedBoolOptions this) "resume" isresume in
  evo ← (if isresume : bool then
           call_cmaes_resume_distribution evo "resumecmaes.dat"
         else mret evo);
  _ ← SimTK_CMAES_PRINT (emit (Printf (cmaes_SayHello evo +:+ newline)));
  generations fuel fuel evo funvals.

(** [CMAESOptimizer::optimize].  [results] is passed by reference: the
    function returns the objective value together with the vector as it
    leaves it.  [fuel] bounds the number of rounds of each loop. *)
Definition optimize (fuel : nat) (results : Vector) : M (Real * Vector) :=
  _ ← checkInitialPointIsFeasible results;
  '(evo, _) ← run fuel results;
  wrap_up evo results.

(** *** Vocabulary of the statements *)

(** An integer option is acceptable to a non-negativity check when it is
    unset or set to a non-negative value. *)
Definition unset_or_nonneg (key : string) : Prop :=
  ∀ v, advancedIntOptions this !! key = Some v → (0 ≤ v)%Z.

(** The call of [cmaes_init_para] that [init] makes. *)
Definition init_call (results : Vector) : Event :=
  CallInitPara (getNumParameters sys) results
    (replicate (Z.to_nat (getNumParameters sys)) init_stepsize)
    (default 0%Z (advancedIntOptions this !! "seed"))
    init_numsamples "writeonly".

(** [x] lies in the box: every coordinate below the dimension exists,
    has limits, and lies between them. *)
Definition within_limits (x : Vector) : Prop :=
  ∀ j, (j < Z.to_nat (getNumParameters sys))%nat →
    ∃ xj lo hi,
      x !! j = Some xj ∧ lowerLimits sys !! j = Some lo
      ∧ upperLimits sys !! j = Some hi ∧ (lo <= xj <= hi)%R.

(** Some coordinate of [x] below the dimension lies outside its limits. *)
Definition outside_limits (x : Vector) : Prop :=
  ∃ j, (j < Z.to_nat (getNumParameters sys))%nat
    ∧ (x _[j] < (lowerLimits sys) _[j] ∨ (upperLimits sys) _[j] < x _[j])%R.

(** The offspring of the current population, that is the rows with index
    below [lambda], all lie in the box. *)
Definition population_within_limits (evo : cmaes_t) : Prop :=
  ∀ i, (INR i < cmaes_Get evo "lambda")%R →
    ∃ x, rgrgx evo !! i = Some x ∧ within_limits x.

(** What the bounds property asks of a call: the point handed to the
    objective lies in the box, and so does the population on which the
    distribution update works. *)
Definition call_within_limits (e : Event) : Prop :=
  match e with
  | CallObjectiveFunc x _ => within_limits x
  | CallUpdateDistribution evo _ => population_within_limits evo
  | _ => True
  end.

(** The calls a run of [optimize] from [results] can make, as the source
    shows them: which call, with which constant arguments, under which
    setting. *)
Definition may_call (results : Vector) (e : Event) : Prop :=
  match e with
  | CallInitPara _ _ _ _ _ _ => e = init_call results
  | CallResumeDistribution filename =>
      advancedBoolOptions this !! "resume" = Some true
      ∧ filename = "resumecmaes.dat"
  | Printf _ => Z.testbit (diagnosticsLevel this) 0 = true
  | CallReSampleSingle _ => getHasLimits sys = true
  | CallObjectiveFunc x _ => length x = Z.to_nat (getNumParameters sys)
  | CallWriteToFile key filename =>
      Z.testbit (diagnosticsLevel this) 1 = true
      ∧ ((key = "resume" ∧ filename = "resumecmaes.dat")
         ∨ (key = "all" ∧ filename = "allcmaes.dat"))
  | CallInitFinal _ | CallSamplePopulation | CallUpdateDistribution _ _
  | CallExit => True
  end.

(** The state that [cmaes_init_para] hands back to [init]. *)
Definition init_para_state (results : Vector) : cmaes_t :=
  cmaes_init_para (getNumParameters sys) results
    (replicate (Z.to_nat (getNumParameters sys)) init_stepsize)
    (default 0%Z (advancedIntOptions this !! "seed"))
    init_numsamples "writeonly".

End Optimizer.

Section Logic.
Context `{cmaes_interface}.


(** [traces Φ m Q]: run from a trace whose events all satisfy [Φ], [m] only
    adds events that satisfy [Φ], and a value it returns satisfies [Q]. *)
Definition traces (Φ : Event → Prop) {A : Type} (m : M A) (Q : A → Prop)
    : Prop :=
  ∀ tr, Forall Φ tr →
    Forall Φ (m tr).2 ∧ ∀ a, (m tr).1 = Normal a → Q a.


End Logic.
End CMAESOptimizer.

(** ** A scripted engine and some optimizers, for running the model *)

Module Scenario.
Import OptimizerSystems CMAESOptimizer.
Local Open Scope R_scope.

(** A stand-in for the CMA-ES engine that hands out offspring from a fixed
    script instead of drawing them, stops when the generation counter
    reaches [sp.stopMaxIter], and refuses a population size below 2
    ("population size lambda >= 2") when the initialisation is finalised. *)
Record scripted_engine : Type := {
  s_lambda : Z;
  s_gen : Z;
  s_population : list Vector;
  s_script : list Vector;
  s_xbestever : Vector;
  s_fbestever : Real
}.

Definition script : list Vector := [[9; 9]; [1; 1]; [2; 2]].

Definition on_engine (f : scripted_engine → scripted_engine)
    (evo : cmaes_state scripted_engine) : cmaes_state scripted_engine :=
  {| sp := sp evo; engine := f (engine evo) |}.

#[export] Instance scripted : cmaes_interface := {|
  cmaes_engine := scripted_engine;
  cmaes_init_para dimension xstart stddev seed lambda filename :=
    {| sp := {| stopMaxIter := 0; stopTolFun := 0; stopMaxFunEvals := 0;
                updateCmode_maxtime := 0.2 |};
       engine := {| s_lambda := lambda; s_gen := 0; s_population := [];
                    s_script := script; s_xbestever := xstart;
                    s_fbestever := 0 |} |};
  cmaes_init_final evo :=
    if (s_lambda (engine evo) <? 2)%Z then None
    else Some (evo, replicate (Z.to_nat (s_lambda (engine evo))) 0);
  cmaes_resume_distribution evo filename := evo;
  cmaes_SayHello evo := "scripted";
  cmaes_TestForTermination evo :=
    if (stopMaxIter (sp evo) <=? s_gen (engine evo))%Z
    then Some "MaxIter" else None;
  cmaes_SamplePopulation :=
    on_engine (λ e,
      {| s_lambda := s_lambda e; s_gen := s_gen e;
         s_population := take (Z.to_nat (s_lambda e)) (s_script e);
         s_script := drop (Z.to_nat (s_lambda e)) (s_script e);
         s_xbestever := s_xbestever e; s_fbestever := s_fbestever e |});
  cmaes_ReSampleSingle evo i :=
    on_engine (λ e,
      match s_script e with
      | x :: rest =>
          {| s_lambda := s_lambda e; s_gen := s_gen e;
             s_population := <[i := x]> (s_population e);
             s_script := rest;
             s_xbestever := s_xbestever e; s_fbestever := s_fbestever e |}
      | [] => e
      end) evo;
  rgrgx evo := s_population (engine evo);
  cmaes_UpdateDistribution evo funvals :=
    on_engine (λ e,
      {| s_lambda := s_lambda e; s_gen := s_gen e + 1;
         s_population := s_population e; s_script := s_script e;
         s_xbestever := default (s_xbestever e) (s_population e !! 0%nat);
         s_fbestever := default (s_fbestever e) (funvals !! 0%nat) |}) evo;
  cmaes_Get evo key :=
    if String.eqb key "lambda" then IZR (s_lambda (engine evo))
    else if String.eqb key "fbestever" then s_fbestever (engine evo)
    else 0;
  cmaes_GetPtr evo key := s_xbestever (engine evo)
|}.

(** A two-parameter system with limits [[0, 5]] whose callback succeeds
    and leaves [f] as it is, and the same system with a callback that always
    signals failure (status 1). *)
Definition boxed_system : OptimizerSystem := {|
  getNumParameters := 2;
  getHasLimits := true;
  lowerLimits := [0; 0];
  upperLimits := [5; 5];
  objectiveFunc := λ x new_parameters f, Some (0%Z, f)
|}.

Definition failing_system : OptimizerSystem := {|
  getNumParameters := 2;
  getHasLimits := true;
  lowerLimits := [0; 0];
  upperLimits := [5; 5];
  objectiveFunc := λ x new_parameters f, Some (1%Z, f)
|}.

(** An optimizer with every option left unset. *)
Definition plain_optimizer (s : OptimizerSystem) : OptimizerRep := {|
  getOptimizerSystem := s;
  maxIterations := 1000;
  convergenceTolerance := 1e-3;
  diagnosticsLevel := 0;
  advancedIntOptions := ∅;
  advancedRealOptions := ∅;
  advancedBoolOptions := ∅
|}.

(** An optimizer on the boxed system: one generation of two offspring,
    both diagnostics bits set, and 2 as the time fraction for the
    eigendecomposition; and the same optimizer on the failing system. *)
Definition boxed_optimizer : OptimizerRep := {|
  getOptimizerSystem := boxed_system;
  maxIterations := 1;
  convergenceTolerance := 0.5;
  diagnosticsLevel := 3;
  advancedIntOptions := {[ "lambda" := 2%Z ]};
  advancedRealOptions := {[ "maxTimeFractionForEigendecomposition" := 2 ]};
  advancedBoolOptions := ∅
|}.

Definition failing_optimizer : OptimizerRep := {|
  getOptimizerSystem := failing_system;
  maxIterations := 1;
  convergenceTolerance := 0.5;
  diagnosticsLevel := 3;
  advancedIntOptions := {[ "lambda" := 2%Z ]};
  advancedRealOptions := {[ "maxTimeFractionForEigendecomposition" := 2 ]};
  advancedBoolOptions := ∅
|}.

(** The state of the scripted engine when [boxed_optimizer] (or
    [failing_optimizer]) has initialised it, the state when its only
    generation has been sampled and re-sampled, and the state after the
    update. *)
Definition initial_state : cmaes_state scripted_engine := {|
  sp := {| stopMaxIter := 1; stopTolFun := 0.5; stopMaxFunEvals := 0;
           updateCmode_maxtime := 2 |};
  engine := {| s_lambda := 2; s_gen := 0;
               s_population := []; s_script := script;
               s_xbestever := [1; 1]; s_fbestever := 0 |}
|}.

Definition sampled_state : cmaes_state scripted_engine := {|
  sp := sp initial_state;
  engine := {| s_lambda := 2; s_gen := 0;
               s_population := [[2; 2]; [1; 1]]; s_script := [];
               s_xbestever := [1; 1]; s_fbestever := 0 |}
|}.

Definition final_state : cmaes_state scripted_engine := {|
  sp := sp sampled_state;
  engine := {| s_lambda := 2; s_gen := 1;
               s_population := [[2; 2]; [1; 1]]; s_script := [];
               s_xbestever := [2; 2]; s_fbestever := 0 |}
|}.

(** The calls of [optimize boxed_optimizer] from the point [(1, 1)]:
    those of the initialisation, of the one generation, and of the wrap-up. *)
Definition boxed_init_calls : list Event := [
  CallInitPara 2 [1; 1] [0.1; 0.1] 0 2 "writeonly";
  CallInitFinal initial_state
].

Definition boxed_generation_calls : list Event := [
  CallSamplePopulation;
  CallReSampleSingle 0;
  CallObjectiveFunc [2; 2] 0;
  CallObjectiveFunc [1; 1] 0;
  CallUpdateDistribution sampled_state [0; 0]
].

Definition boxed_wrap_up_calls : list Event := [
  Printf ("Stop:" +:+ newline +:+ "MaxIter" +:+ newline);
  CallWriteToFile "resume" "resumecmaes.dat";
  CallWriteToFile "all" "allcmaes.dat";
  CallExit
].

Definition boxed_run_calls : list Event :=
  boxed_init_calls ++ [Printf ("scripted" +:+ newline)]
  ++ boxed_generation_calls.


(** An optimizer on system [s] with the given advanced options, no
    diagnostics. *)
Definition configured (s : OptimizerSystem) (ints : gmap string Z)
    (reals : gmap string R) (bools : gmap string bool) : OptimizerRep := {|
  getOptimizerSystem := s;
  maxIterations := 1000;
  convergenceTolerance := 0.5;
  diagnosticsLevel := 0;
  advancedIntOptions := ints;
  advancedRealOptions := reals;
  advancedBoolOptions := bools
|}.

End Scenario.


(** * Properties of the test systems *)

Section ForRange.
Local Open Scope R_scope.

Lemma Rsum_ext (g h : nat → R) (k : nat) :
  (∀ i, (i < k)%nat → g i = h i) → Rsum g k = Rsum h k.
Proof.
  induction k as [|k IH]; intros Hgh; simpl; [done|].
  rewrite IH by (intros; apply Hgh; lia).
  rewrite Hgh by lia. done.
Qed.

Lemma Rsum_shift (g : nat → R) (k : nat) :
  Rsum g (S k) = g 0%nat + Rsum (λ i, g (S i)) k.
Proof.
  induction k as [|k IH]; simpl in *; [lra|].
  rewrite IH. lra.
Qed.

(** A counted loop that adds [term i] to its accumulator in round [i]
    computes the accumulator plus the sum of the terms. *)
Lemma for_range_accumulate (body : nat → R → option R) (term : nat → R)
    (start count : nat) (f : R) :
  (∀ i a, (start ≤ i < start + count)%nat → body i a = Some (a + term i)) →
  for_range start count body f
  = Some (f + Rsum (λ k, term (start + k)%nat) count).
Proof.
  revert start f. induction count as [|count IH]; intros start f Hbody.
  - simpl. f_equal. lra.
  - cbn [for_range]. rewrite Hbody by lia. cbn [mbind option_bind].
    rewrite IH by (intros; apply Hbody; lia).
    f_equal. rewrite Rsum_shift. rewrite Nat.add_0_r.
    rewrite (Rsum_ext (λ k, term (S start + k)%nat)
                      (λ i, term (start + S i)%nat)).
    + lra.
    + intros i _. f_equal. lia.
Qed.

Lemma lookup_coord (x : Vector) (i : nat) :
  (i < length x)%nat → x !! i = Some x _[i].
Proof.
  intros Hi. unfold coord.
  destruct (lookup_lt_is_Some_2 x i Hi) as [v Hv].
  rewrite Hv. f_equal. symmetry. apply nth_lookup_Some with (d := 0) in Hv.
  done.
Qed.

End ForRange.

Module OptimizerSystemsFacts.
Import OptimizerSystems.
Local Open Scope R_scope.

Lemma to_unsigned_int (z : Z) :
  (0 ≤ z ≤ INT_MAX)%Z → to_unsigned z = z.
Proof.
  unfold to_unsigned, INT_MAX. intros Hz. apply Z.mod_small. lia.
Qed.

(** C8.  For a vector [x] of dimension [n] (with [n >= 2], so that [x[1]]
    exists), [Cigtab::objectiveFunc] returns status 0 and sets [f] to
    [1e4*x_0^2 + 1e-4*x_1^2 + sum_{i<n} x_i^2]; the sum runs over every
    coordinate, the first two included, and the incoming [f] is ignored. *)
Theorem Cigtab_objectiveFunc_value
    (n : Z) (x : Vector) (new_parameters : bool) (f0 : Real) :
  (2 ≤ n ≤ INT_MAX)%Z →
  length x = Z.to_nat n →
  objectiveFunc (Cigtab n) x new_parameters f0
  = Some (0%Z, 1e4 * x _[0] ^ 2 + 1e-4 * x _[1] ^ 2
               + Rsum (λ i, x _[i] ^ 2) (Z.to_nat n)).
Proof.
  intros Hn Hlen. cbn [objectiveFunc Cigtab system].
  unfold Cigtab_objectiveFunc.
  rewrite !lookup_coord by lia. cbn [mbind option_bind].
  rewrite to_unsigned_int by lia.
  rewrite (for_range_accumulate _ (λ i, x _[i] ^ 2)).
  - cbn [mbind option_bind]. do 2 f_equal. simpl Nat.add. ring.
  - intros i a Hi. rewrite lookup_coord by lia. cbn [mbind option_bind].
    f_equal. ring.
Qed.

Lemma Cigtab_objectiveFunc_value_witness :
  objectiveFunc (Cigtab 3) [1; 2; 3] true 7
  = Some (0%Z, 1e4 * [1; 2; 3] _[0] ^ 2 + 1e-4 * [1; 2; 3] _[1] ^ 2
               + Rsum (λ i, [1; 2; 3] _[i] ^ 2) (Z.to_nat 3)).
Proof.
  apply Cigtab_objectiveFunc_value; [unfold INT_MAX; lia | reflexivity].
Defined.

(** C9.  [Rosenbrock::objectiveFunc] never assigns [f]; it only adds to it.
    For a vector of dimension [n >= 1] and an incoming value [f0] it returns
    status 0 with [f = f0 + sum_{i=0}^{n-2} (100 (x_{i+1} - x_i^2)^2 +
    (x_i - 1)^2)], which is the Rosenbrock function exactly when [f0 = 0]. *)
Theorem Rosenbrock_objectiveFunc_accumulates
    (n : Z) (x : Vector) (new_parameters : bool) (f0 : Real) :
  (1 ≤ n ≤ INT_MAX)%Z →
  length x = Z.to_nat n →
  ∃ f : Real,
    objectiveFunc (Rosenbrock n) x new_parameters f0 = Some (0%Z, f)
    ∧ f = f0 + Rsum (rosenbrock_term x) (Z.to_nat n - 1)
    ∧ (f = rosenbrock (Z.to_nat n) x ↔ f0 = 0).
Proof.
  intros Hn Hlen.
  exists (f0 + Rsum (rosenbrock_term x) (Z.to_nat n - 1)).
  split; [|split].
  - cbn [objectiveFunc Rosenbrock system]. unfold Rosenbrock_objectiveFunc.
    rewrite to_unsigned_int by (unfold INT_MAX in *; lia).
    rewrite (for_range_accumulate _ (rosenbrock_term x)).
    + cbn [mbind option_bind].
      replace (Z.to_nat (n - 1)) with (Z.to_nat n - 1)%nat by lia.
      reflexivity.
    + intros i a Hi. rewrite !lookup_coord by lia. cbn [mbind option_bind].
      unfold rosenbrock_term. do 2 f_equal. ring.
  - reflexivity.
  - unfold rosenbrock. split; intros H; lra.
Qed.

Lemma Rosenbrock_objectiveFunc_accumulates_witness :
  ∃ f : Real,
    objectiveFunc (Rosenbrock 3) [1; 2; 3] true 5 = Some (0%Z, f)
    ∧ f = 5 + Rsum (rosenbrock_term [1; 2; 3]) (Z.to_nat 3 - 1)
    ∧ (f = rosenbrock (Z.to_nat 3) [1; 2; 3] ↔ 5 = 0).
Proof.
  apply Rosenbrock_objectiveFunc_accumulates;
    [unfold INT_MAX; lia | reflexivity].
Defined.

(** Concretely: called twice on the same point without resetting [f], the
    second call returns twice the function value. *)
Example Rosenbrock_called_twice :
  objectiveFunc (Rosenbrock 2) [0; 1] true 0 = Some (0%Z, 101)
  ∧ objectiveFunc (Rosenbrock 2) [0; 1] true 101 = Some (0%Z, 202).
Proof.
  split; cbn [objectiveFunc Rosenbrock system];
    unfold Rosenbrock_objectiveFunc;
    change (Z.to_nat (to_unsigned (2 - 1))) with 1%nat;
    cbn; do 2 f_equal; lra.
Qed.

(** C10.  [DropWave::objectiveFunc] is total on two-dimensional input and
    always returns status 0; its divisor [0.5 (x_0^2 + x_1^2) + 2] is at
    least 2, hence never zero; and at the optimal parameters [(0, 0)] it
    yields exactly the optimal value [-1]. *)
Theorem DropWave_objectiveFunc_total
    (x : Vector) (new_parameters : bool) (f0 : Real) :
  length x = Z.to_nat (getNumParameters DropWave) →
  let dotprod := x _[0] * x _[0] + x _[1] * x _[1] in
  objectiveFunc DropWave x new_parameters f0
  = Some (0%Z, (- (1 + cos (12 * sqrt dotprod))) / DropWave_divisor dotprod)
  ∧ 2 <= DropWave_divisor dotprod
  ∧ optimalParameters DropWave = [0; 0]
  ∧ objectiveFunc DropWave (optimalParameters DropWave) new_parameters f0
    = Some (0%Z, optimalValue DropWave).
Proof.
  intros Hlen dotprod. cbn in Hlen. repeat split.
  - cbn [objectiveFunc DropWave system]. unfold DropWave_objectiveFunc.
    rewrite !lookup_coord by lia. reflexivity.
  - unfold DropWave_divisor, dotprod. nra.
  - cbn [objectiveFunc DropWave system optimalParameters optimalValue].
    unfold DropWave_objectiveFunc, DropWave_divisor. cbn.
    do 2 f_equal.
    replace (0 * 0 + 0 * 0) with 0 by lra.
    rewrite sqrt_0, Rmult_0_r, cos_0. lra.
Qed.

Lemma DropWave_objectiveFunc_total_witness :
  let dotprod := [3; 4] _[0] * [3; 4] _[0] + [3; 4] _[1] * [3; 4] _[1] in
  objectiveFunc DropWave [3; 4] true 0
  = Some (0%Z, (- (1 + cos (12 * sqrt dotprod))) / DropWave_divisor dotprod)
  ∧ 2 <= DropWave_divisor dotprod
  ∧ optimalParameters DropWave = [0; 0]
  ∧ objectiveFunc DropWave (optimalParameters DropWave) true 0
    = Some (0%Z, optimalValue DropWave).
Proof.
  apply DropWave_objectiveFunc_total. reflexivity.
Defined.

(** The value of Cigtab at the point of all ones in dimension 4. *)
Example Cigtab_at_ones :
  objectiveFunc (Cigtab 4) [1; 1; 1; 1] true 0 = Some (0%Z, 10004.0001).
Proof.
  cbn [objectiveFunc Cigtab system]. unfold Cigtab_objectiveFunc.
  change (Z.to_nat (to_unsigned 4)) with 4%nat.
  cbn -[IZR Z.pow_pos]. do 2 f_equal. lra.
Qed.

End OptimizerSystemsFacts.

(** * The declared optima of the test systems *)

Module TestSystemOptima.
Import OptimizerSystems OptimizerSystemsFacts.
Local Open Scope R_scope.

Lemma Rsum_nonneg (g : nat → R) (k : nat) :
  (∀ i, (i < k)%nat → 0 <= g i) → 0 <= Rsum g k.
Proof.
  induction k as [|k IH]; intros Hg; simpl; [lra|].
  assert (0 <= Rsum g k) by (apply IH; intros; apply Hg; lia).
  assert (0 <= g k) by (apply Hg; lia). lra.
Qed.

Lemma Rsum_zero_terms (g : nat → R) (k : nat) :
  (∀ i, (i < k)%nat → 0 <= g i) → Rsum g k = 0 →
  ∀ i, (i < k)%nat → g i = 0.
Proof.
  induction k as [|k IH]; intros Hg Hsum i Hi; [lia|]. simpl in Hsum.
  assert (0 <= Rsum g k) by (apply Rsum_nonneg; intros; apply Hg; lia).
  assert (0 <= g k) by (apply Hg; lia).
  destruct (decide (i = k)) as [->|Hne]; [lra|].
  apply IH; [intros; apply Hg; lia | lra | lia].
Qed.

Lemma Rsum_const (c : R) (k : nat) : Rsum (λ _, c) k = INR k * c.
Proof.
  induction k as [|k IH]; [simpl; lra|].
  rewrite S_INR. cbn [Rsum]. rewrite IH. lra.
Qed.

Lemma coord_replicate (k : nat) (c : R) (i : nat) :
  (i < k)%nat → (replicate k c) _[i] = c.
Proof.
  intros Hi. unfold coord.
  apply nth_lookup_Some with (d := 0). by apply lookup_replicate_2.
Qed.

(** A vector all of whose coordinates are [c] is [replicate _ c]. *)
Lemma constant_vector (x : Vector) (c : R) :
  (∀ i, (i < length x)%nat → x _[i] = c) → x = replicate (length x) c.
Proof.
  intros Hx. apply list_eq. intros i.
  destruct (decide (i < length x)%nat) as [Hi|Hi].
  - rewrite lookup_coord, lookup_replicate_2 by done. f_equal. by apply Hx.
  - rewrite lookup_ge_None_2 by lia.
    symmetry. apply lookup_replicate_None. lia.
Qed.

Lemma Cigtab_objectiveFunc_eq
    (n : Z) (x : Vector) (new_parameters : bool) (f0 : Real) :
  (2 ≤ n ≤ INT_MAX)%Z →
  length x = Z.to_nat n →
  objectiveFunc (Cigtab n) x new_parameters f0
  = Some (0%Z, 1e4 * (x _[0] * x _[0]) + 1e-4 * (x _[1] * x _[1])
               + Rsum (λ i, x _[i] * x _[i]) (Z.to_nat n)).
Proof.
  intros Hn Hlen. cbn [objectiveFunc Cigtab system].
  unfold Cigtab_objectiveFunc.
  rewrite !lookup_coord by lia. cbn [mbind option_bind].
  rewrite to_unsigned_int by lia.
  rewrite (for_range_accumulate _ (λ i, x _[i] * x _[i])).
  - cbn [mbind option_bind]. do 2 f_equal. simpl Nat.add. ring.
  - intros i a Hi. by rewrite lookup_coord by lia.
Qed.

(** X1.  The optimum that [Cigtab] declares is a global minimum: in every
    dimension [n >= 2] the function is nowhere below [optimalValue()], and
    at [optimalParameters()] it takes exactly that value. *)
Theorem Cigtab_optimum
    (n : Z) (x : Vector) (new_parameters : bool) (f0 : Real) :
  (2 ≤ n ≤ INT_MAX)%Z →
  length x = Z.to_nat n →
  (∃ f : Real,
     objectiveFunc (Cigtab n) x new_parameters f0 = Some (0%Z, f)
     ∧ optimalValue (Cigtab n) <= f)
  ∧ objectiveFunc (Cigtab n) (optimalParameters (Cigtab n))
      new_parameters f0
    = Some (0%Z, optimalValue (Cigtab n)).
Proof.
  intros Hn Hlen. split.
  - eexists. split; [by apply Cigtab_objectiveFunc_eq|].
    cbn [optimalValue Cigtab].
    assert (0 <= Rsum (λ i, x _[i] * x _[i]) (Z.to_nat n))
      by (apply Rsum_nonneg; intros; nra).
    assert (0 <= x _[0] * x _[0]) by nra.
    assert (0 <= x _[1] * x _[1]) by nra.
    lra.
  - rewrite Cigtab_objectiveFunc_eq
      by (done || (cbn [optimalParameters Cigtab]; apply length_replicate)).
    cbn [optimalValue optimalParameters Cigtab]. do 2 f_equal.
    rewrite (Rsum_ext _ (λ _, 0)).
    + rewrite Rsum_const, !coord_replicate by lia. lra.
    + intros i Hi. rewrite coord_replicate by done. lra.
Qed.

Lemma Cigtab_optimum_witness :
  (∃ f : Real,
     objectiveFunc (Cigtab 3) [1; 2; 3] true 7 = Some (0%Z, f)
     ∧ optimalValue (Cigtab 3) <= f)
  ∧ objectiveFunc (Cigtab 3) (optimalParameters (Cigtab 3)) true 7
    = Some (0%Z, optimalValue (Cigtab 3)).
Proof.
  apply Cigtab_optimum; [unfold INT_MAX; lia | reflexivity].
Defined.

Lemma square_zero (a : R) : a ^ 2 = 0 → a = 0.
Proof.
  intros Ha. destruct (Req_dec a 0) as [|Hne]; [done|].
  pose proof (pow_nonzero a 2 Hne). done.
Qed.

Lemma rosenbrock_term_nonneg (x : Vector) (i : nat) :
  0 <= rosenbrock_term x i.
Proof.
  unfold rosenbrock_term.
  pose proof (pow2_ge_0 (x _[i + 1] - x _[i] ^ 2)).
  pose proof (pow2_ge_0 (x _[i] - 1)). lra.
Qed.

Lemma rosenbrock_term_zero (x : Vector) (i : nat) :
  rosenbrock_term x i = 0 → x _[i] = 1 ∧ x _[i + 1] = 1.
Proof.
  unfold rosenbrock_term. intros Hterm.
  pose proof (pow2_ge_0 (x _[i + 1] - x _[i] ^ 2)) as H1.
  pose proof (pow2_ge_0 (x _[i] - 1)) as H2.
  assert (Ha : x _[i] - 1 = 0) by (apply square_zero; lra).
  assert (Hb : x _[i + 1] - x _[i] ^ 2 = 0) by (apply square_zero; lra).
  assert (Hi : x _[i] = 1) by lra. split; [done|].
  rewrite Hi in Hb. lra.
Qed.

Lemma Rosenbrock_objectiveFunc_eq
    (n : Z) (x : Vector) (new_parameters : bool) (f0 : Real) :
  (1 ≤ n ≤ INT_MAX)%Z →
  length x = Z.to_nat n →
  objectiveFunc (Rosenbrock n) x new_parameters f0
  = Some (0%Z, f0 + Rsum (rosenbrock_term x) (Z.to_nat n - 1)).
Proof.
  intros Hn Hlen.
  cbn [objectiveFunc Rosenbrock system]. unfold Rosenbrock_objectiveFunc.
  rewrite to_unsigned_int by (unfold INT_MAX in *; lia).
  rewrite (for_range_accumulate _ (rosenbrock_term x)).
  - cbn [mbind option_bind].
    by replace (Z.to_nat (n - 1)) with (Z.to_nat n - 1)%nat by lia.
  - intros i a Hi. rewrite !lookup_coord by lia. cbn [mbind option_bind].
    unfold rosenbrock_term. do 2 f_equal. ring.
Qed.

(** X2.  The optimum that [Rosenbrock] declares is right when the function
    is called with [f] preset to 0: the result is at least
    [optimalValue()], it is [optimalValue()] at [optimalParameters()], and,
    from dimension 2 on, nowhere else.  With any other preset the result is
    never below the preset. *)
Theorem Rosenbrock_optimum
    (n : Z) (x : Vector) (new_parameters : bool) (f0 : Real) :
  (1 ≤ n ≤ INT_MAX)%Z →
  length x = Z.to_nat n →
  (∃ f : Real,
     objectiveFunc (Rosenbrock n) x new_parameters f0 = Some (0%Z, f)
     ∧ f0 <= f)
  ∧ (∃ f : Real,
       objectiveFunc (Rosenbrock n) x new_parameters 0 = Some (0%Z, f)
       ∧ optimalValue (Rosenbrock n) <= f
       ∧ (x = optimalParameters (Rosenbrock n) →
          f = optimalValue (Rosenbrock n))
       ∧ ((2 ≤ n)%Z → f = optimalValue (Rosenbrock n) →
          x = optimalParameters (Rosenbrock n))).
Proof.
  intros Hn Hlen.
  assert (HS : 0 <= Rsum (rosenbrock_term x) (Z.to_nat n - 1)).
  { apply Rsum_nonneg. intros. apply rosenbrock_term_nonneg. }
  split.
  - eexists. split; [by apply Rosenbrock_objectiveFunc_eq|]. lra.
  - eexists. split; [by apply Rosenbrock_objectiveFunc_eq|].
    cbn [optimalValue optimalParameters Rosenbrock].
    split; [lra|]. split.
    + intros ->. rewrite (Rsum_ext _ (λ _, 0)).
      * rewrite Rsum_const. lra.
      * intros i Hi. unfold rosenbrock_term.
        rewrite !coord_replicate by lia. lra.
    + intros Hn2 Hf.
      assert (HS0 : Rsum (rosenbrock_term x) (Z.to_nat n - 1) = 0) by lra.
      pose proof (Rsum_zero_terms _ _
                    (λ i _, rosenbrock_term_nonneg x i) HS0) as Hterms.
      rewrite <- Hlen. apply constant_vector. intros i Hi.
      destruct (decide (i < Z.to_nat n - 1)%nat) as [Hlt|Hge].
      * by apply rosenbrock_term_zero, Hterms.
      * replace i with (Z.to_nat n - 2 + 1)%nat by lia.
        apply rosenbrock_term_zero, Hterms. lia.
Qed.

Lemma Rosenbrock_optimum_witness :
  (∃ f : Real,
     objectiveFunc (Rosenbrock 3) [1; 2; 3] true 5 = Some (0%Z, f)
     ∧ 5 <= f)
  ∧ (∃ f : Real,
       objectiveFunc (Rosenbrock 3) [1; 2; 3] true 0 = Some (0%Z, f)
       ∧ optimalValue (Rosenbrock 3) <= f
       ∧ ([1; 2; 3] = optimalParameters (Rosenbrock 3) →
          f = optimalValue (Rosenbrock 3))
       ∧ ((2 ≤ 3)%Z → f = optimalValue (Rosenbrock 3) →
          [1; 2; 3] = optimalParameters (Rosenbrock 3))).
Proof.
  apply Rosenbrock_optimum; [unfold INT_MAX; lia | reflexivity].
Defined.

(** In dimension 1 the loop of [Rosenbrock] does not run: every point has
    the value of the preset. *)
Example Rosenbrock_dimension_one (a f0 : Real) :
  objectiveFunc (Rosenbrock 1) [a] true f0 = Some (0%Z, f0).
Proof. reflexivity. Qed.

(** X3.  On the box that [DropWave] declares as its limits, the function
    never goes below the optimal value it declares: for a point with both
    coordinates between the lower and the upper limit, the result lies
    between [optimalValue() = -1] and 0. *)
Theorem DropWave_lower_bound
    (x0 x1 : Real) (new_parameters : bool) (f0 : Real) :
  (lowerLimits DropWave) _[0] <= x0 <= (upperLimits DropWave) _[0] →
  (lowerLimits DropWave) _[1] <= x1 <= (upperLimits DropWave) _[1] →
  ∃ f : Real,
    objectiveFunc DropWave [x0; x1] new_parameters f0 = Some (0%Z, f)
    ∧ optimalValue DropWave <= f <= 0.
Proof.
  intros _ _.
  cbn [objectiveFunc DropWave system optimalValue].
  unfold DropWave_objectiveFunc.
  cbn [lookup list_lookup mbind option_bind]. eexists. split; [reflexivity|].
  set (d := x0 * x0 + x1 * x1).
  set (t := 12 * sqrt d).
  assert (Hd : 0 <= d) by (unfold d; nra).
  pose proof (COS_bound t) as [Hc1 Hc2].
  assert (HD : 2 <= DropWave_divisor d) by (unfold DropWave_divisor; lra).
  unfold Rdiv.
  assert (Hinv : 0 < / DropWave_divisor d) by (apply Rinv_0_lt_compat; lra).
  assert (Hone : DropWave_divisor d * / DropWave_divisor d = 1)
    by (apply Rinv_r; lra).
  split; nra.
Qed.

Lemma DropWave_lower_bound_witness :
  ∃ f : Real,
    objectiveFunc DropWave [3; 4] true 0 = Some (0%Z, f)
    ∧ optimalValue DropWave <= f <= 0.
Proof.
  apply DropWave_lower_bound; unfold coord; cbn [nth]; simpl; lra.
Defined.

(** X4.  [Easom::objectiveFunc] is defined on two-dimensional input and
    returns status 0; the optimum it declares is right: the function is at
    least [optimalValue() = -1] everywhere, and equals it at
    [optimalParameters() = (Pi, Pi)]. *)
Theorem Easom_optimum (x : Vector) (new_parameters : bool) (f0 : Real) :
  length x = Z.to_nat (getNumParameters Easom) →
  (∃ f : Real,
     objectiveFunc Easom x new_parameters f0 = Some (0%Z, f)
     ∧ optimalValue Easom <= f)
  ∧ objectiveFunc Easom (optimalParameters Easom) new_parameters f0
    = Some (0%Z, optimalValue Easom).
Proof.
  intros Hlen. cbn in Hlen.
  cbn [objectiveFunc Easom system optimalValue optimalParameters]. split.
  - unfold Easom_objectiveFunc. rewrite !lookup_coord by lia.
    cbn [mbind option_bind]. eexists. split; [reflexivity|].
    set (e := exp _).
    assert (He : 0 < e <= 1).
    { subst e. split; [apply exp_pos|].
      rewrite <- exp_0.
      pose proof (pow2_ge_0 (x _[0] - PI)).
      pose proof (pow2_ge_0 (x _[1] - PI)).
      match goal with |- exp ?a <= _ =>
        destruct (Req_dec a 0) as [->|Hne]; [lra|];
        left; apply exp_increasing; lra end. }
    pose proof (COS_bound x _[0]) as [? ?].
    pose proof (COS_bound x _[1]) as [? ?].
    assert (Hcc : cos x _[0] * cos x _[1] <= 1) by nra.
    assert (Hcc' : -1 <= cos x _[0] * cos x _[1]) by nra.
    nra.
  - cbn [replicate]. unfold Easom_objectiveFunc.
    cbn [lookup list_lookup mbind option_bind]. do 2 f_equal.
    rewrite cos_PI.
    replace (- (PI - PI) ^ 2 - (PI - PI) ^ 2) with 0 by ring.
    rewrite exp_0. lra.
Qed.

Lemma Easom_optimum_witness :
  (∃ f : Real,
     objectiveFunc Easom [3; 4] true 0 = Some (0%Z, f)
     ∧ optimalValue Easom <= f)
  ∧ objectiveFunc Easom (optimalParameters Easom) true 0
    = Some (0%Z, optimalValue Easom).
Proof. apply Easom_optimum. reflexivity. Defined.


End TestSystemOptima.


(** * Properties of the optimizer *)

Module CMAESOptimizerFacts.
Import OptimizerSystems CMAESOptimizer.

(** ** The comparisons *)

Lemma Rltb_true (a b : R) : (a < b)%R → Rltb a b = true.
Proof. intros Hab. unfold Rltb. destruct (Rlt_dec a b); done. Qed.

Lemma Rltb_false (a b : R) : (b <= a)%R → Rltb a b = false.
Proof. intros Hab. unfold Rltb. destruct (Rlt_dec a b); [lra | done]. Qed.

Lemma Rleb_true (a b : R) : (a <= b)%R → Rleb a b = true.
Proof. intros Hab. unfold Rleb. destruct (Rle_dec a b); done. Qed.

Lemma Rleb_false (a b : R) : (b < a)%R → Rleb a b = false.
Proof. intros Hab. unfold Rleb. destruct (Rle_dec a b); [lra | done]. Qed.

Lemma Req_bool_true (a b : R) : a = b → Req_bool a b = true.
Proof. intros Hab. unfold Req_bool. destruct (Req_dec_T a b); done. Qed.

Lemma Req_bool_false (a b : R) : a ≠ b → Req_bool a b = false.
Proof. intros Hab. unfold Req_bool. destruct (Req_dec_T a b); done. Qed.

(** ** Running the trace monad *)

Section Monad.
Context `{cmaes_interface}.

Lemma bind_Normal {A B : Type} (m : M A) (k : A → M B) tr a tr' :
  m tr = (Normal a, tr') → (m ≫= k) tr = k a tr'.
Proof. intros Hm. unfold mbind, M_bind. rewrite Hm. done. Qed.

Lemma bind_Throw {A B : Type} (m : M A) (k : A → M B) tr e tr' :
  m tr = (Throw e, tr') → (m ≫= k) tr = (Throw e, tr').
Proof. intros Hm. unfold mbind, M_bind. rewrite Hm. done. Qed.

Lemma bind_inv_Normal {A B : Type} (m : M A) (k : A → M B) tr b tr2 :
  (m ≫= k) tr = (Normal b, tr2) →
  ∃ a tr1, m tr = (Normal a, tr1) ∧ k a tr1 = (Normal b, tr2).
Proof.
  unfold mbind, M_bind. destruct (m tr) as [[a| | |] tr1]; try done.
  eauto.
Qed.

Lemma ret_bind {A B : Type} (a : A) (k : A → M B) :
  mret a ≫= k = k a.
Proof. done. Qed.

Lemma emit_bind {B : Type} (e : Event) (k : unit → M B) tr :
  (emit e ≫= k) tr = k () (tr ++ [e]).
Proof. done. Qed.

Lemma call_bind {A B : Type} (e : Event) (a : A) (k : A → M B) tr :
  (call e a ≫= k) tr = k a (tr ++ [e]).
Proof. done. Qed.

Lemma call_cmaes_init_final_Some (evo : cmaes_t) r tr :
  cmaes_init_final evo = Some r →
  call_cmaes_init_final evo tr = (Normal r, tr ++ [CallInitFinal evo]).
Proof.
  intros Hr. unfold call_cmaes_init_final. by rewrite call_bind, Hr.
Qed.

Lemma call_cmaes_init_final_None (evo : cmaes_t) tr :
  cmaes_init_final evo = None →
  call_cmaes_init_final evo tr = (Throw ConfigError, tr ++ [CallInitFinal evo]).
Proof.
  intros Hr. unfold call_cmaes_init_final. by rewrite call_bind, Hr.
Qed.

(** *** A program logic for what the trace may contain *)

Section Traces.
Context (Φ : Event → Prop).
Local Abbreviation traces := (traces Φ).

Lemma traces_ret {A : Type} (a : A) (Q : A → Prop) :
  Q a → traces (mret a) Q.
Proof. intros HQ tr Htr. split; [done|]. cbn. intros ? [= <-]. done. Qed.

Lemma traces_bind {A B : Type} (m : M A) (k : A → M B)
    (P : A → Prop) (Q : B → Prop) :
  traces m P → (∀ a, P a → traces (k a) Q) → traces (m ≫= k) Q.
Proof.
  intros Hm Hk tr Htr. destruct (Hm tr Htr) as [Htr' HP].
  unfold mbind, M_bind. destruct (m tr) as [[a| | |] tr'] eqn:E; cbn in *;
    try (split; [done | intros ?; congruence]).
  apply Hk; auto.
Qed.

Lemma traces_ret_bind {A B : Type} (a : A) (k : A → M B) (Q : B → Prop) :
  traces (k a) Q → traces (mret a ≫= k) Q.
Proof. intros Hk tr Htr. rewrite ret_bind. by apply Hk. Qed.

Lemma traces_emit (e : Event) (Q : unit → Prop) :
  Φ e → Q () → traces (emit e) Q.
Proof.
  intros He HQ tr Htr. split.
  - cbn. apply Forall_app. split; [done|]. by constructor.
  - intros []. done.
Qed.

Lemma traces_call {A : Type} (e : Event) (a : A) (Q : A → Prop) :
  Φ e → Q a → traces (call e a) Q.
Proof.
  intros He HQ tr Htr. split.
  - cbn. apply Forall_app. split; [done|]. by constructor.
  - cbn. by intros ? [= <-].
Qed.

Lemma traces_throw {A : Type} (e : Exception) (Q : A → Prop) :
  traces (throw e) Q.
Proof. intros tr Htr. split; [done|]. cbn. congruence. Qed.

Lemma traces_undefined {A : Type} (Q : A → Prop) : traces undefined Q.
Proof. intros tr Htr. split; [done|]. cbn. congruence. Qed.

Lemma traces_timeout {A : Type} (Q : A → Prop) : traces timeout Q.
Proof. intros tr Htr. split; [done|]. cbn. congruence. Qed.

Lemma traces_read {A : Type} (o : option A) (Q : A → Prop) :
  (∀ a, o = Some a → Q a) → traces (read o) Q.
Proof.
  intros HQ. destruct o as [a|]; cbn.
  - apply traces_ret. auto.
  - apply traces_undefined.
Qed.

Lemma traces_write (v : list Real) (i : nat) (a : Real)
    (Q : list Real → Prop) :
  ((i < length v)%nat → Q (<[i := a]> v)) → traces (write v i a) Q.
Proof.
  intros HQ. unfold write. case_decide.
  - apply traces_ret. auto.
  - apply traces_undefined.
Qed.

Lemma traces_weaken {A : Type} (m : M A) (P Q : A → Prop) :
  traces m P → (∀ a, P a → Q a) → traces m Q.
Proof.
  intros Hm HPQ tr Htr. destruct (Hm tr Htr) as [? HP]. split; auto.
Qed.

Lemma traces_for_range {St : Type} (body : nat → St → M St)
    (start count : nat) (s : St) :
  (∀ i s, traces (body i s) (λ _, True)) →
  traces (for_range start count body s) (λ _, True).
Proof.
  intros Hbody. revert start s.
  induction count as [|count IH]; intros start s; cbn [for_range].
  - by apply traces_ret.
  - eapply traces_bind; [apply Hbody|]. intros s' _. apply IH.
Qed.

Lemma traces_VALUECHECK_NONNEG (val : Z) (valName where_ : string)
    (Q : unit → Prop) :
  ((0 ≤ val)%Z → Q ()) → traces (SimTK_VALUECHECK_NONNEG_ALWAYS val valName where_) Q.
Proof.
  intros HQ. unfold SimTK_VALUECHECK_NONNEG_ALWAYS. case_decide.
  - apply traces_ret. auto.
  - apply traces_throw.
Qed.

End Traces.
End Monad.

(** ** Initialisation *)

Section Init.
Context `{cmaes_interface} (this : OptimizerRep).
Local Abbreviation sys := (getOptimizerSystem this).
Local Abbreviation n := (getNumParameters (getOptimizerSystem this)).

Lemma fill_array (v w : R) (start count : nat) :
  for_range start count
    (λ i a, if decide (i < length a)%nat then Some (<[i := v]> a) else None)
    (replicate start v ++ replicate count w)
  = Some (replicate (start + count) v).
Proof.
  revert start. induction count as [|count IH]; intros start.
  - cbn. by rewrite app_nil_r, Nat.add_0_r.
  - cbn [for_range]. rewrite decide_True.
    2:{ rewrite length_app, !length_replicate. lia. }
    cbn [mbind option_bind].
    replace (<[start:=v]> (replicate start v ++ replicate (S count) w))
      with (replicate (S start) v ++ replicate count w).
    + rewrite IH. f_equal. f_equal. lia.
    + rewrite (replicate_S_end start), <- app_assoc.
      rewrite insert_app_r_alt by (rewrite length_replicate; lia).
      rewrite length_replicate, Nat.sub_diag. done.
Qed.

Lemma init_stepsizeArray_eq :
  init_stepsizeArray this
  = Some (replicate (Z.to_nat n) (init_stepsize this)).
Proof.
  unfold init_stepsizeArray.
  apply (fill_array (init_stepsize this) 0%R 0 (Z.to_nat n)).
Qed.

(** [processSettingsAfterCMAESInit] makes no call: the trace is unchanged,
    and it either returns or throws at the [stopMaxFunEvals] check. *)
Lemma processSettingsAfterCMAESInit_silent (evo : cmaes_t) tr :
  (processSettingsAfterCMAESInit this evo tr).2 = tr.
Proof.
  unfold processSettingsAfterCMAESInit, getAdvancedOption.
  unfold mbind, M_bind, SimTK_VALUECHECK_NONNEG_ALWAYS.
  destruct (advancedIntOptions this !! "stopMaxFunEvals") as [v|];
    destruct (advancedRealOptions this !! _) as [w|];
    try case_decide; done.
Qed.

(** When the check of [stopMaxFunEvals] passes,
    [processSettingsAfterCMAESInit] returns: it has touched nothing outside
    [sp], and [sp.updateCmode.maxtime] holds the option when it is set. *)
Lemma processSettingsAfterCMAESInit_Normal (evo : cmaes_t) tr :
  unset_or_nonneg this "stopMaxFunEvals" →
  ∃ evo', processSettingsAfterCMAESInit this evo tr = (Normal evo', tr)
    ∧ engine evo' = engine evo
    ∧ ∀ v, advancedRealOptions this
             !! "maxTimeFractionForEigendecomposition" = Some v →
           updateCmode_maxtime (sp evo') = v.
Proof.
  intros Hok.
  unfold processSettingsAfterCMAESInit, getAdvancedOption.
  unfold mbind, M_bind, SimTK_VALUECHECK_NONNEG_ALWAYS.
  destruct (advancedIntOptions this !! "stopMaxFunEvals") as [v|] eqn:Ev;
    destruct (advancedRealOptions this !! _) as [w|];
    try (rewrite decide_True by (by apply Hok));
    eexists; (split; [reflexivity|]); (split; [reflexivity|]);
    intros ? [= <-] || intros ? [=]; done.
Qed.

(** When the checks of [seed] and [stopMaxFunEvals] pass, [init] comes to
    its last line having made the one call [init_call]: it ends as
    [cmaes_init_final] does, on a state built from the one that
    [cmaes_init_para] returned. *)
Lemma init_finalises (results : Vector) tr :
  unset_or_nonneg this "seed" →
  unset_or_nonneg this "stopMaxFunEvals" →
  ∃ evo,
    init this results tr
    = call_cmaes_init_final evo (tr ++ [init_call this results])
    ∧ engine evo = engine (init_para_state this results)
    ∧ ∀ v, advancedRealOptions this
             !! "maxTimeFractionForEigendecomposition" = Some v →
           updateCmode_maxtime (sp evo) = v.
Proof.
  intros Hseed Hevals. unfold init, init_call, init_para_state.
  rewrite init_stepsizeArray_eq. cbn [read]. rewrite ret_bind.
  unfold getAdvancedOption, SimTK_VALUECHECK_NONNEG_ALWAYS.
  destruct (advancedIntOptions this !! "seed") as [v|] eqn:Ev;
    cbn [default from_option id].
  all: try rewrite decide_True by (by apply Hseed).
  all: rewrite ret_bind; unfold call_cmaes_init_para; rewrite call_bind.
  all: match goal with
       | |- context [(processSettingsAfterCMAESInit _ ?evo0 ≫= _) ?tr1] =>
           destruct (processSettingsAfterCMAESInit_Normal evo0 tr1 Hevals)
             as (evo & Hevo & Hengine & Hmax)
       end.
  all: exists evo; split; [|done].
  all: by erewrite bind_Normal by exact Hevo.
Qed.

Lemma init_Normal (results : Vector) tr :
  unset_or_nonneg this "seed" →
  unset_or_nonneg this "stopMaxFunEvals" →
  ∃ evo,
    engine evo = engine (init_para_state this results)
    ∧ ∀ r, cmaes_init_final evo = Some r →
        init this results tr
        = (Normal r, tr ++ [init_call this results; CallInitFinal evo]).
Proof.
  intros Hseed Hevals.
  destruct (init_finalises results tr Hseed Hevals) as (evo & Hinit & He & _).
  exists evo. split; [done|]. intros r Hr. rewrite Hinit.
  rewrite (call_cmaes_init_final_Some evo r) by done.
  by rewrite <- app_assoc.
Qed.

Lemma init_Throw_seed (results : Vector) tr (v : Z) :
  advancedIntOptions this !! "seed" = Some v → (v < 0)%Z →
  init this results tr
  = (Throw (ValueWasNegative "seed" v
              "CMAESOptimizer::processSettingsBeforeCMAESInit"), tr).
Proof.
  intros Hseed Hv. unfold init. rewrite init_stepsizeArray_eq.
  cbn [read]. rewrite ret_bind.
  unfold getAdvancedOption. rewrite Hseed.
  unfold SimTK_VALUECHECK_NONNEG_ALWAYS. rewrite decide_False by lia.
  reflexivity.
Qed.

Lemma processSettingsAfterCMAESInit_Throw (evo : cmaes_t) tr (v : Z) :
  advancedIntOptions this !! "stopMaxFunEvals" = Some v → (v < 0)%Z →
  processSettingsAfterCMAESInit this evo tr
  = (Throw (ValueWasNegative "stopMaxFunEvals" v
              "CMAESOptimizer::processSettingsAfterCMAESInit"), tr).
Proof.
  intros Hopt Hv. unfold processSettingsAfterCMAESInit, getAdvancedOption.
  rewrite Hopt. unfold SimTK_VALUECHECK_NONNEG_ALWAYS.
  rewrite decide_False by lia. reflexivity.
Qed.

Lemma init_Throw_stopMaxFunEvals (results : Vector) tr (v : Z) :
  unset_or_nonneg this "seed" →
  advancedIntOptions this !! "stopMaxFunEvals" = Some v → (v < 0)%Z →
  init this results tr
  = (Throw (ValueWasNegative "stopMaxFunEvals" v
              "CMAESOptimizer::processSettingsAfterCMAESInit"),
     tr ++ [init_call this results]).
Proof.
  intros Hseed Hopt Hv. unfold init, init_call.
  rewrite init_stepsizeArray_eq. cbn [read]. rewrite ret_bind.
  unfold getAdvancedOption, SimTK_VALUECHECK_NONNEG_ALWAYS.
  destruct (advancedIntOptions this !! "seed") as [w|] eqn:Ew;
    cbn [default from_option id].
  all: try rewrite decide_True by (by apply Hseed).
  all: rewrite ret_bind; unfold call_cmaes_init_para; rewrite call_bind.
  all: by erewrite bind_Throw
         by (by apply processSettingsAfterCMAESInit_Throw).
Qed.

(** A check of an option either passes or throws. *)
Lemma option_checked (key : string) :
  unset_or_nonneg this key
  ∨ ∃ v, advancedIntOptions this !! key = Some v ∧ (v < 0)%Z.
Proof.
  destruct (advancedIntOptions this !! key) as [v|] eqn:Ev.
  - destruct (decide (0 ≤ v)%Z) as [Hv|Hv].
    + left. intros w Hw. unfold unset_or_nonneg in *. congruence.
    + right. exists v. split; [done | lia].
  - left. intros w Hw. congruence.
Qed.

(** However [init] ends, it has gone through the library: when it returns,
    what it returns is what [cmaes_init_final] made of a state built from
    the one that [cmaes_init_para] returned for the arguments of
    [init_call]. *)
Lemma init_inv_Normal (results : Vector) tr r tr' :
  init this results tr = (Normal r, tr') →
  ∃ evo,
    cmaes_init_final evo = Some r
    ∧ engine evo = engine (init_para_state this results)
    ∧ tr' = tr ++ [init_call this results; CallInitFinal evo]
    ∧ ∀ v, advancedRealOptions this
             !! "maxTimeFractionForEigendecomposition" = Some v →
           updateCmode_maxtime (sp evo) = v.
Proof.
  intros Hreturn.
  destruct (option_checked "seed") as [Hseed | (v & Hv & Hneg)];
    [|by rewrite (init_Throw_seed results tr v) in Hreturn].
  destruct (option_checked "stopMaxFunEvals") as [Hevals | (v & Hv & Hneg)];
    [|by rewrite (init_Throw_stopMaxFunEvals results tr v) in Hreturn].
  destruct (init_finalises results tr Hseed Hevals)
    as (evo & Hinit & Hengine & Hmax).
  rewrite Hinit in Hreturn. exists evo.
  destruct (cmaes_init_final evo) as [r0|] eqn:Efinal.
  - rewrite (call_cmaes_init_final_Some evo r0) in Hreturn by done.
    injection Hreturn as <- <-. by rewrite <- app_assoc.
  - by rewrite (call_cmaes_init_final_None evo) in Hreturn.
Qed.

(** Once the check of [seed] has passed, [init] calls [cmaes_init_para],
    with the arguments of [init_call]. *)
Lemma init_calls_init_para (results : Vector) tr :
  unset_or_nonneg this "seed" →
  init_call this results ∈ (init this results tr).2.
Proof.
  intros Hseed.
  destruct (option_checked "stopMaxFunEvals") as [Hevals | (v & Hv & Hneg)].
  - destruct (init_finalises results tr Hseed Hevals) as (evo & -> & _).
    unfold call_cmaes_init_final. rewrite call_bind.
    assert (Hin : init_call this results
                  ∈ (tr ++ [init_call this results]) ++ [CallInitFinal evo])
      by (rewrite !elem_of_app, !list_elem_of_singleton; tauto).
    by destruct (cmaes_init_final evo).
  - rewrite (init_Throw_stopMaxFunEvals results tr v) by done. cbn [snd].
    rewrite elem_of_app, list_elem_of_singleton. tauto.
Qed.

(** When the checks of [seed] and [stopMaxFunEvals] pass, the one way for
    [init] to fail is that the library refuses the state on which the
    initialisation is finalised. *)
Lemma init_inv_Throw (results : Vector) tr e tr' :
  unset_or_nonneg this "seed" →
  unset_or_nonneg this "stopMaxFunEvals" →
  init this results tr = (Throw e, tr') →
  e = ConfigError
  ∧ ∃ evo,
      cmaes_init_final evo = None
      ∧ engine evo = engine (init_para_state this results)
      ∧ ∀ v, advancedRealOptions this
               !! "maxTimeFractionForEigendecomposition" = Some v →
             updateCmode_maxtime (sp evo) = v.
Proof.
  intros Hseed Hevals Hthrow.
  destruct (init_finalises results tr Hseed Hevals)
    as (evo & Hinit & Hengine & Hmax).
  rewrite Hinit in Hthrow.
  destruct (cmaes_init_final evo) as [r0|] eqn:Efinal.
  - by rewrite (call_cmaes_init_final_Some evo r0) in Hthrow.
  - rewrite (call_cmaes_init_final_None evo) in Hthrow by done.
    injection Hthrow as <- <-. eauto.
Qed.

End Init.

(** ** The defaults of [init] *)

Section Defaults.
Context `{cmaes_interface} (this : OptimizerRep).
Local Abbreviation n := (getNumParameters (getOptimizerSystem this)).
Local Open Scope R_scope.

Lemma ln_nonneg (x : R) : 1 <= x → 0 <= ln x.
Proof.
  intros [Hx | <-].
  - rewrite <- ln_1. left. apply ln_increasing; lra.
  - rewrite ln_1. lra.
Qed.

Lemma int_of_double_nonneg (r : R) : 0 <= r → int_of_double r = Zfloor r.
Proof.
  intros Hr. unfold int_of_double. destruct (Rlt_dec r 0); [lra | done].
Qed.

Lemma init_numsamples_default :
  (advancedIntOptions this !! "lambda" = None
   ∨ advancedIntOptions this !! "lambda" = Some 0%Z) →
  (1 ≤ n)%Z →
  init_numsamples this = Zfloor (4 + 3 * ln (IZR n)).
Proof.
  intros Hopt Hn. unfold init_numsamples, getAdvancedOption.
  assert (Hln : 0 <= 3 * ln (IZR n)).
  { assert (0 <= ln (IZR n)); [|lra].
    apply ln_nonneg. apply (IZR_le 1). done. }
  destruct Hopt as [-> | ->]; cbn [Z.eqb];
    rewrite int_of_double_nonneg by done;
    rewrite (Rplus_comm 4), (Zfloor_addz 4); lia.
Qed.

Lemma init_stepsize_default :
  (advancedRealOptions this !! "sigma" = None
   ∨ advancedRealOptions this !! "sigma" = Some 0) →
  init_stepsize this = 0.1.
Proof.
  intros Hopt. unfold init_stepsize, getAdvancedOption.
  destruct Hopt as [-> | ->]; rewrite Req_bool_true; done || lra.
Qed.

(** For a dimension that fits an [int], so does [3 ln n], and so does the
    default population size: the conversion [int(...)] and the addition in
    [4 + int(3*std::log((double)n))] stay within the range of [int]. *)
Lemma ln_2_lt_1 : ln 2 < 1.
Proof.
  apply Rlt_le_trans with (ln (exp 1)); [|rewrite ln_exp; lra].
  apply ln_increasing; [lra|]. pose proof (exp_ineq1 1). lra.
Qed.

Lemma init_numsamples_default_fits_int :
  (advancedIntOptions this !! "lambda" = None
   ∨ advancedIntOptions this !! "lambda" = Some 0%Z) →
  (1 ≤ n ≤ INT_MAX)%Z →
  (4 ≤ init_numsamples this ≤ 97)%Z.
Proof.
  intros Hopt Hn. rewrite init_numsamples_default by (done || lia).
  assert (H1 : 1 <= IZR n) by (apply (IZR_le 1); lia).
  assert (Hlo : 0 <= ln (IZR n)) by (by apply ln_nonneg).
  assert (Hhi : ln (IZR n) < 31).
  { assert (Hpow : 2 ^ 31 = IZR (2 ^ 31)) by (by rewrite pow_IZR).
    apply Rlt_trans with (ln (2 ^ 31)).
    - apply ln_increasing; [lra|]. rewrite Hpow. apply IZR_lt.
      unfold INT_MAX in Hn. lia.
    - rewrite ln_pow by lra. pose proof ln_2_lt_1 as Hln2.
      replace (INR 31) with 31 by (rewrite INR_IZR_INZ; done).
      pose proof ln_lt_2. nra. }
  rewrite (Rplus_comm 4), (Zfloor_addz 4).
  assert (0 ≤ Zfloor (3 * ln (IZR n)))%Z by (apply (Zfloor_lub 0); lra).
  assert (Zfloor (3 * ln (IZR n)) ≤ 93)%Z.
  { pose proof (Zfloor_bound (3 * ln (IZR n))) as [Hb _].
    apply le_IZR. lra. }
  lia.
Qed.

(** The only calls [init] makes are [cmaes_init_para], with the arguments
    of [init_call], and [cmaes_init_final]. *)
Lemma call_cmaes_init_final_traces (Φ : Event → Prop) (evo : cmaes_t) :
  Φ (CallInitFinal evo) →
  traces Φ (call_cmaes_init_final evo) (λ _, True).
Proof.
  intros Hfinal. unfold call_cmaes_init_final.
  eapply traces_bind with (P := λ _, True); [by apply traces_call|].
  intros [r|] _; [by apply traces_ret | apply traces_throw].
Qed.

Lemma init_traces (Φ : Event → Prop) (results : Vector) :
  Φ (init_call this results) → (∀ evo, Φ (CallInitFinal evo)) →
  traces Φ (init this results) (λ _, True).
Proof.
  intros Hcall Hfinal.
  unfold init. rewrite init_stepsizeArray_eq. cbn [read].
  apply traces_ret_bind. unfold getAdvancedOption.
  unfold init_call in Hcall.
  destruct (advancedIntOptions this !! "seed") as [v|] eqn:Ev.
  all: eapply traces_bind with (P := λ _, True);
    [ first [ by apply traces_VALUECHECK_NONNEG | by apply traces_ret ] |].
  all: intros _ _; unfold call_cmaes_init_para;
    eapply traces_bind with (P := λ _, True); [ by apply traces_call |].
  all: intros evo0 _; eapply traces_bind with (P := λ _, True).
  all: try (intros evo _; by apply call_cmaes_init_final_traces).
  all: intros tr Htr; rewrite processSettingsAfterCMAESInit_silent;
    split; done.
Qed.

Lemma init_events (results : Vector) (e : Event) :
  e ∈ (init this results []).2 →
  e = init_call this results ∨ ∃ evo, e = CallInitFinal evo.
Proof.
  intros He.
  set (Φ := λ e, e = init_call this results ∨ ∃ evo, e = CallInitFinal evo).
  assert (Hinit : traces Φ (init this results) (λ _, True)).
  { apply init_traces; [by left|]. intros evo. right. by exists evo. }
  destruct (Hinit [] (Forall_nil_2 _)) as [Hall _].
  rewrite Forall_forall in Hall. by apply Hall.
Qed.

End Defaults.

(** ** The feasibility check of the initial point *)

Section InitialPoint.
Context `{cmaes_interface} (this : OptimizerRep).
Local Abbreviation sys := (getOptimizerSystem this).
Local Abbreviation n := (Z.to_nat (getNumParameters (getOptimizerSystem this))).
Local Open Scope R_scope.

Local Abbreviation check_body x :=
  (λ (i : nat) (_ : ()),
     lo ← read (lowerLimits sys !! i);
     xi ← read (x !! i);
     hi ← read (upperLimits sys !! i);
     SimTK_APIARGCHECK4_ALWAYS (Rleb lo xi && Rleb xi hi)
       "CMAESOptimizer" "checkInitialPointIsFeasible" i xi lo hi).

Lemma check_loop_Normal (x : Vector) (start count : nat) tr :
  (∀ j, (start ≤ j < start + count)%nat →
     ∃ xj lo hi, x !! j = Some xj ∧ lowerLimits sys !! j = Some lo
       ∧ upperLimits sys !! j = Some hi ∧ lo <= xj <= hi) →
  for_range start count (check_body x) () tr = (Normal (), tr).
Proof.
  revert start. induction count as [|count IH]; intros start Hok; [done|].
  cbn [for_range].
  destruct (Hok start ltac:(lia)) as (xj & lo & hi & -> & -> & -> & Hlo & Hhi).
  cbn [read]. rewrite !ret_bind.
  rewrite Rleb_true, Rleb_true by done. cbn [andb SimTK_APIARGCHECK4_ALWAYS].
  rewrite ret_bind. apply IH. intros j Hj. apply Hok. lia.
Qed.

Lemma check_loop_Throw (x : Vector) (start count : nat) tr :
  (start + count ≤ length x)%nat →
  (start + count ≤ length (lowerLimits sys))%nat →
  (start + count ≤ length (upperLimits sys))%nat →
  (∃ j, (start ≤ j < start + count)%nat
     ∧ (x _[j] < (lowerLimits sys) _[j] ∨ (upperLimits sys) _[j] < x _[j])) →
  ∃ j xj lo hi,
    for_range start count (check_body x) () tr
    = (Throw (APIArgcheckFailed "CMAESOptimizer" "checkInitialPointIsFeasible"
                j xj lo hi), tr).
Proof.
  revert start. induction count as [|count IH];
    intros start Hx Hlo Hhi (j & Hj & Hout); [lia|].
  cbn [for_range]. rewrite !lookup_coord by lia.
  cbn [read]. rewrite !ret_bind.
  destruct (Rleb (lowerLimits sys) _[start] x _[start]
            && Rleb x _[start] (upperLimits sys) _[start]) eqn:Etest.
  - cbn [SimTK_APIARGCHECK4_ALWAYS]. rewrite ret_bind.
    apply IH; [lia..|].
    exists j. split; [|done].
    destruct (decide (j = start)) as [->|]; [|lia].
    apply andb_prop in Etest as [E1 E2].
    unfold Rleb in E1, E2.
    destruct (Rle_dec _ _); [|done]. destruct (Rle_dec _ _); [|done]. lra.
  - cbn [SimTK_APIARGCHECK4_ALWAYS]. eauto.
Qed.

Lemma checkInitialPointIsFeasible_Normal (x : Vector) tr :
  getHasLimits sys = false ∨ within_limits this x →
  checkInitialPointIsFeasible this x tr = (Normal (), tr).
Proof.
  intros Hok. unfold checkInitialPointIsFeasible.
  destruct (getHasLimits sys); [|done].
  destruct Hok as [|Hok]; [done|].
  apply check_loop_Normal. intros j Hj. apply Hok. lia.
Qed.

Lemma checkInitialPointIsFeasible_Throw (x : Vector) tr :
  getHasLimits sys = true →
  (n ≤ length x)%nat →
  (n ≤ length (lowerLimits sys))%nat →
  (n ≤ length (upperLimits sys))%nat →
  outside_limits this x →
  ∃ j xj lo hi,
    checkInitialPointIsFeasible this x tr
    = (Throw (APIArgcheckFailed "CMAESOptimizer" "checkInitialPointIsFeasible"
                j xj lo hi), tr).
Proof.
  intros Hlim Hx Hlo Hhi (j & Hj & Hout).
  unfold checkInitialPointIsFeasible. rewrite Hlim.
  apply check_loop_Throw; [done..|]. exists j. split; [lia | done].
Qed.

End InitialPoint.

(** ** The wrap-up *)

Section WrapUp.
Context `{cmaes_interface} (this : OptimizerRep).
Local Abbreviation sys := (getOptimizerSystem this).
Local Abbreviation n := (Z.to_nat (getNumParameters (getOptimizerSystem this))).

(** The copy loop [results[i] = optx[i]] overwrites exactly the entries
    [start .. start + count) of [results]. *)
Lemma copy_loop (optx : Vector) (start count : nat) (results : Vector) tr :
  (start + count ≤ length optx)%nat →
  (start + count ≤ length results)%nat →
  for_range start count
    (λ i results, xi ← read (optx !! i); write results i xi) results tr
  = (Normal (take start results ++ take count (drop start optx)
             ++ drop (start + count) results), tr).
Proof.
  revert start results. induction count as [|count IH];
    intros start results Hoptx Hres.
  - rewrite Nat.add_0_r, take_0, app_nil_l, take_drop. done.
  - cbn [for_range].
    destruct (lookup_lt_is_Some_2 optx start ltac:(lia)) as [x Hx].
    rewrite Hx. cbn [read]. rewrite ret_bind.
    unfold write. rewrite decide_True by lia. rewrite ret_bind.
    rewrite IH by (rewrite ?length_insert; lia).
    do 2 f_equal.
    rewrite (take_S_r _ _ x) by (apply list_lookup_insert_eq; lia).
    rewrite take_insert_ge by lia.
    rewrite drop_insert_lt by lia.
    rewrite (drop_S optx x start Hx). cbn [take].
    rewrite <- app_assoc. cbn [app].
    do 4 f_equal. lia.
Qed.

Lemma wrap_up_Normal (evo : cmaes_t) (results : Vector) tr :
  (n ≤ length (cmaes_GetPtr evo "xbestever"))%nat →
  (n ≤ length results)%nat →
  ∃ tr',
    wrap_up this evo results tr
    = (Normal (cmaes_Get evo "fbestever",
               take n (cmaes_GetPtr evo "xbestever") ++ drop n results), tr').
Proof.
  intros Hoptx Hres. unfold wrap_up, SimTK_CMAES_PRINT, SimTK_CMAES_FILE.
  destruct (Z.testbit (diagnosticsLevel this) 0);
    destruct (Z.testbit (diagnosticsLevel this) 1);
    rewrite ?emit_bind, ?ret_bind.
  all: erewrite bind_Normal by (apply copy_loop; cbn; lia).
  all: rewrite ?emit_bind, ?ret_bind; cbn [mret M_ret].
  all: eexists; rewrite drop_0; reflexivity.
Qed.

(** The generation loop returns only from a state in which
    [cmaes_TestForTermination] gave a reason to stop. *)
Lemma generations_terminated (fuel budget : nat) (evo evo' : cmaes_t)
    (funvals funvals' : list Real) tr tr' :
  generations this fuel budget evo funvals tr = (Normal (evo', funvals'), tr') →
  is_Some (cmaes_TestForTermination evo').
Proof.
  revert evo funvals tr. induction fuel as [|fuel IH];
    intros evo funvals tr; cbn [generations]; [done|].
  destruct (cmaes_TestForTermination evo) as [reason|] eqn:Eterm.
  - intros [= <- <- <-]. rewrite Eterm. eauto.
  - intros Hrun. apply bind_inv_Normal in Hrun as ([evo1 fv1] & tr1 & _ & Hrest).
    by eapply IH.
Qed.

Lemma run_terminated (fuel : nat) (results : Vector) (evo : cmaes_t)
    (funvals : list Real) tr tr' :
  run this fuel results tr = (Normal (evo, funvals), tr') →
  is_Some (cmaes_TestForTermination evo).
Proof.
  unfold run. intros Hrun.
  apply bind_inv_Normal in Hrun as ([evo0 fv0] & tr0 & _ & Hrun).
  destruct (getAdvancedOption _ _ _) as [found isresume].
  apply bind_inv_Normal in Hrun as (evo1 & tr1 & _ & Hrun).
  apply bind_inv_Normal in Hrun as ([] & tr2 & _ & Hrun).
  by eapply generations_terminated.
Qed.

End WrapUp.

(** ** Offspring stay within the limits *)

Section Bounds.
Context `{cmaes_contract} (this : OptimizerRep).
Local Abbreviation sys := (getOptimizerSystem this).
Local Abbreviation n := (Z.to_nat (getNumParameters (getOptimizerSystem this))).
Local Open Scope R_scope.

Local Abbreviation Φ := (call_within_limits this).

Lemma scan_offspring_true (x : Vector) (j count : nat) :
  scan_offspring j count x (lowerLimits sys) (upperLimits sys) = Some true →
  ∀ j', (j ≤ j' < j + count)%nat →
    ∃ xj lo hi,
      x !! j' = Some xj ∧ lowerLimits sys !! j' = Some lo
      ∧ upperLimits sys !! j' = Some hi ∧ lo <= xj <= hi.
Proof.
  revert j. induction count as [|count IH]; intros j Hscan j' Hj'; [lia|].
  cbn [scan_offspring] in Hscan.
  destruct (x !! j) as [xj|] eqn:Ex; [|done].
  destruct (lowerLimits sys !! j) as [lo|] eqn:Elo; [|done].
  cbn [mbind option_bind] in Hscan.
  unfold Rltb in Hscan.
  destruct (Rlt_dec xj lo) as [|Hlo]; [done|].
  destruct (upperLimits sys !! j) as [hi|] eqn:Ehi; [|done].
  cbn [mbind option_bind] in Hscan.
  destruct (Rlt_dec hi xj) as [|Hhi]; [done|].
  destruct (decide (j' = j)) as [->|Hne].
  - exists xj, lo, hi. repeat split; try done; lra.
  - apply (IH (S j)); [done | lia].
Qed.

Lemma within_limits_take (x : Vector) :
  within_limits this x → within_limits this (take n x).
Proof.
  intros Hx j Hj. destruct (Hx j Hj) as (xj & lo & hi & ? & ?).
  exists xj, lo, hi. by rewrite lookup_take_lt.
Qed.

(** Offspring [i] of [evo] exists and lies in the box. *)
Local Abbreviation offspring_ok evo i :=
  (∃ x, rgrgx evo !! i = Some x ∧ within_limits this x).

(** The state is the distribution update of a population within the
    limits, on the values [funvals]. *)
Local Abbreviation adapted evo' funvals :=
  (∃ filtered, population_within_limits this filtered
     ∧ evo' = cmaes_UpdateDistribution filtered funvals).

(** The generation loop for any property [Ψ] of calls that holds of the
    sampling calls, of an evaluation at a point within the limits, and of an
    update of a population within the limits. *)
Section Filter.
Context (Ψ : Event → Prop).
Context (Hsample : Ψ CallSamplePopulation).
Context (Hresample : ∀ i, Ψ (CallReSampleSingle i)).
Context (Hevaluate : ∀ x status,
           within_limits this x → Ψ (CallObjectiveFunc x status)).
Context (Hupdate : ∀ evo funvals,
           population_within_limits this evo →
           Ψ (CallUpdateDistribution evo funvals)).

Lemma resample_until_feasible_traces (fuel : nat) (evo : cmaes_t) (i : nat) :
  traces Ψ (resample_until_feasible this fuel evo i)
    (λ evo', cmaes_Get evo' "lambda" = cmaes_Get evo "lambda"
             ∧ (∀ k, k ≠ i → rgrgx evo' !! k = rgrgx evo !! k)
             ∧ offspring_ok evo' i).
Proof.
  revert evo. induction fuel as [|fuel IH]; intros evo;
    cbn [resample_until_feasible]; [apply traces_timeout|].
  eapply traces_bind with (P := λ x, rgrgx evo !! i = Some x);
    [by apply traces_read|].
  intros x Hx.
  eapply traces_bind
    with (P := λ b, scan_offspring 0 n x (lowerLimits sys) (upperLimits sys)
                    = Some b);
    [by apply traces_read|].
  intros [] Hscan.
  - apply traces_ret. split; [done|]. split; [done|].
    exists x. split; [done|]. intros j Hj.
    apply (scan_offspring_true x 0 n Hscan). lia.
  - unfold call_cmaes_ReSampleSingle.
    eapply traces_bind with (P := λ evo1, evo1 = cmaes_ReSampleSingle evo i);
      [by apply traces_call|].
    intros evo1 ->. eapply traces_weaken; [apply IH|].
    intros evo' (Hlam & Hother & Hi). split; [|split; [|done]].
    + by rewrite Hlam, ReSampleSingle_lambda.
    + intros k Hk. by rewrite Hother, ReSampleSingle_other.
Qed.

Lemma resample_population_traces (fuel budget : nat) (evo : cmaes_t)
    (i : nat) :
  (∀ k, (k < i)%nat → offspring_ok evo k) →
  traces Ψ (resample_population this fuel budget evo i)
    (population_within_limits this).
Proof.
  revert evo i. induction fuel as [|fuel IH]; intros evo i Hbelow;
    cbn [resample_population]; [apply traces_timeout|].
  unfold Rltb. destruct (Rlt_dec (INR i) (cmaes_Get evo "lambda")) as [Hi|Hi].
  - eapply traces_bind; [apply resample_until_feasible_traces|].
    intros evo' (Hlam & Hother & Hrow). cbn beta. apply IH.
    intros k Hk. destruct (decide (k = i)) as [->|Hne]; [done|].
    rewrite Hother by done. apply Hbelow. lia.
  - apply traces_ret. intros k Hk. apply Hbelow.
    apply INR_lt. lra.
Qed.

Lemma objectiveFuncWrapper_traces (x : list Real) (new_parameters : bool)
    (f : Real) :
  within_limits this x →
  traces Ψ (objectiveFuncWrapper this (getNumParameters sys) x
              new_parameters f) (λ _, True).
Proof.
  intros Hx. unfold objectiveFuncWrapper. case_decide.
  - apply traces_ret_bind.
    eapply traces_bind with (P := λ _, True).
    + unfold call_objectiveFunc.
      eapply traces_bind with (P := λ _, True); [by apply traces_read|].
      intros r _. apply traces_call; [|done].
      by apply Hevaluate, within_limits_take.
    + intros [status f'] _.
      destruct (status =? 0)%Z; [by apply traces_ret | apply traces_throw].
  - eapply traces_bind with (P := λ _, False); [apply traces_undefined|].
    intros ? [].
Qed.

Lemma evaluate_population_traces (fuel : nat) (evo : cmaes_t) (i : nat)
    (funvals : list Real) :
  population_within_limits this evo →
  traces Ψ (evaluate_population this fuel evo i funvals) (λ _, True).
Proof.
  intros Hpop. revert i funvals. induction fuel as [|fuel IH];
    intros i funvals; cbn [evaluate_population]; [apply traces_timeout|].
  unfold Rltb. destruct (Rlt_dec (INR i) (cmaes_Get evo "lambda")) as [Hi|Hi];
    [|by apply traces_ret].
  destruct (Hpop i Hi) as (x & Hx & Hbox). rewrite Hx. cbn [read].
  apply traces_ret_bind.
  eapply traces_bind with (P := λ _, True); [by apply traces_read|].
  intros f _.
  eapply traces_bind with (P := λ _, True);
    [by apply objectiveFuncWrapper_traces|].
  intros [ret f'] _.
  eapply traces_bind with (P := λ _, True); [by apply traces_write|].
  intros funvals' _. apply IH.
Qed.

(** A generation that returns has updated the distribution from a
    population within the limits. *)
Lemma generation_traces (fuel : nat) (evo : cmaes_t) (funvals : list Real) :
  getHasLimits sys = true →
  traces Ψ (generation this fuel evo funvals) (λ r, adapted r.1 r.2).
Proof.
  intros Hlim. unfold generation. rewrite Hlim.
  unfold call_cmaes_SamplePopulation, call_cmaes_UpdateDistribution.
  eapply traces_bind with (P := λ _, True); [by apply traces_call|].
  intros evo1 _.
  eapply traces_bind; [apply resample_population_traces; intros k Hk; lia|].
  intros filtered Hpop. cbn beta.
  eapply traces_bind with (P := λ _, True);
    [by apply evaluate_population_traces|].
  intros funvals' _.
  eapply traces_bind
    with (P := λ evo', evo' = cmaes_UpdateDistribution filtered funvals').
  - apply traces_call; [by apply Hupdate | done].
  - intros evo' ->. apply traces_ret. by exists filtered.
Qed.

(** The loop returns the state it started from, when that state already
    tests as terminated, or else a state as [generation] returns it. *)
Lemma generations_traces (fuel budget : nat) (evo : cmaes_t)
    (funvals : list Real) :
  getHasLimits sys = true →
  traces Ψ (generations this fuel budget evo funvals)
    (λ r, (is_Some (cmaes_TestForTermination evo) ∧ r = (evo, funvals))
          ∨ adapted r.1 r.2).
Proof.
  intros Hlim. revert evo funvals. induction fuel as [|fuel IH];
    intros evo funvals; cbn [generations]; [apply traces_timeout|].
  destruct (cmaes_TestForTermination evo) as [reason|] eqn:Eterm.
  - apply traces_ret. left. split; [by eexists | done].
  - eapply traces_bind; [by apply generation_traces|].
    intros [evo1 funvals1] Hadapted. cbn [fst snd] in Hadapted.
    eapply traces_weaken; [apply IH|].
    intros [evo' funvals'] [[_ [= -> ->]] | Hlater]; right; done.
Qed.

End Filter.

Lemma checkInitialPointIsFeasible_traces (Ψ : Event → Prop) (x : Vector) :
  traces Ψ (checkInitialPointIsFeasible this x) (λ _, True).
Proof.
  unfold checkInitialPointIsFeasible.
  destruct (getHasLimits sys); [|by apply traces_ret].
  apply traces_for_range. intros i [].
  eapply traces_bind with (P := λ _, True); [by apply traces_read|].
  intros lo _.
  eapply traces_bind with (P := λ _, True); [by apply traces_read|].
  intros xi _.
  eapply traces_bind with (P := λ _, True); [by apply traces_read|].
  intros hi _. unfold SimTK_APIARGCHECK4_ALWAYS.
  destruct (_ && _); [by apply traces_ret | apply traces_throw].
Qed.

Lemma wrap_up_traces (Ψ : Event → Prop) (evo : cmaes_t) (results : Vector) :
  (∀ text, Ψ (Printf text)) →
  (∀ key filename, Ψ (CallWriteToFile key filename)) →
  Ψ CallExit →
  traces Ψ (wrap_up this evo results) (λ _, True).
Proof.
  intros Hprint Hfile Hexit. unfold wrap_up.
  eapply traces_bind with (P := λ _, True).
  { unfold SimTK_CMAES_PRINT.
    destruct (Z.testbit _ _); [by apply traces_emit | by apply traces_ret]. }
  intros _ _.
  eapply traces_bind with (P := λ _, True).
  { apply traces_for_range. intros i r.
    eapply traces_bind with (P := λ _, True); [by apply traces_read|].
    intros xi _. by apply traces_write. }
  intros results' _.
  do 2 (eapply traces_bind with (P := λ _, True);
        [ unfold SimTK_CMAES_FILE;
          destruct (Z.testbit _ _); [by apply traces_emit | by apply traces_ret]
        | intros _ _ ]).
  eapply traces_bind with (P := λ _, True); [by apply traces_emit|].
  intros _ _. by apply traces_ret.
Qed.

Lemma run_traces (fuel : nat) (results : Vector) :
  getHasLimits sys = true →
  traces Φ (run this fuel results) (λ _, True).
Proof.
  intros Hlim. unfold run.
  eapply traces_bind with (P := λ _, True); [by apply init_traces|].
  intros [evo funvals] _.
  destruct (getAdvancedOption _ _ _) as [found isresume].
  eapply traces_bind with (P := λ _, True).
  { destruct isresume; [|by apply traces_ret].
    by apply traces_call. }
  intros evo' _.
  eapply traces_bind with (P := λ _, True).
  { unfold SimTK_CMAES_PRINT.
    destruct (Z.testbit _ _); [by apply traces_emit | by apply traces_ret]. }
  intros _ _. eapply traces_weaken; [by apply (generations_traces Φ)|done].
Qed.

Lemma optimize_traces (fuel : nat) (results : Vector) :
  getHasLimits sys = true →
  traces Φ (optimize this fuel results) (λ _, True).
Proof.
  intros Hlim. unfold optimize.
  eapply traces_bind with (P := λ _, True);
    [apply checkInitialPointIsFeasible_traces|].
  intros _ _.
  eapply traces_bind with (P := λ _, True); [by apply run_traces|].
  intros [evo funvals] _. by apply wrap_up_traces.
Qed.

End Bounds.

(** ** A failed evaluation ends the run *)

Section Failure.
Context `{cmaes_interface}.








Context (this : OptimizerRep).
Local Abbreviation sys := (getOptimizerSystem this).









End Failure.

(** ** A run of the scripted scenario *)

Section ScenarioRun.
Import Scenario.
Local Open Scope R_scope.

#[local] Arguments Rltb : simpl never.
#[local] Arguments Rleb : simpl never.
#[local] Arguments Req_bool : simpl never.

Ltac decide_comparisons :=
  repeat match goal with
  | |- context [Rltb ?a ?b] =>
      first [ rewrite (Rltb_true a b) by (simpl; lra)
            | rewrite (Rltb_false a b) by (simpl; lra) ]
  | |- context [Rleb ?a ?b] =>
      first [ rewrite (Rleb_true a b) by (simpl; lra)
            | rewrite (Rleb_false a b) by (simpl; lra) ]
  | |- context [Req_bool ?a ?b] =>
      first [ rewrite (Req_bool_true a b) by (simpl; lra)
            | rewrite (Req_bool_false a b) by (simpl; lra) ]
  | |- context [decide ?P] =>
      first [ rewrite (decide_True (P := P)) by (simpl; lia)
            | rewrite (decide_False (P := P)) by (simpl; lia) ]
  end.

Ltac run_model :=
  repeat (progress
    (unfold mbind, M_bind, mret, M_ret, emit, call, read, write, undefined,
       throw, generation, objectiveFuncWrapper, call_objectiveFunc,
       call_cmaes_init_para, call_cmaes_init_final,
       call_cmaes_SamplePopulation, call_cmaes_ReSampleSingle,
       call_cmaes_UpdateDistribution, call_cmaes_resume_distribution,
       SimTK_CMAES_PRINT, SimTK_CMAES_FILE;
     cbn; change (Z.to_nat 2) with 2%nat;
     decide_comparisons)).

Lemma boxed_check tr :
  checkInitialPointIsFeasible boxed_optimizer [1; 1] tr = (Normal (), tr).
Proof.
  unfold checkInitialPointIsFeasible. run_model. done.
Qed.

Lemma boxed_init tr :
  init boxed_optimizer [1; 1] tr
  = (Normal (initial_state, [0; 0]), tr ++ boxed_init_calls).
Proof.
  unfold init. rewrite init_stepsizeArray_eq.
  rewrite init_stepsize_default by (left; done).
  unfold init_numsamples, processSettingsAfterCMAESInit, getAdvancedOption.
  cbn [advancedIntOptions advancedRealOptions boxed_optimizer].
  rewrite !lookup_singleton_eq, !lookup_singleton_ne by done.
  run_model. by rewrite <- app_assoc.
Qed.

Lemma boxed_generation tr :
  generation boxed_optimizer 3 initial_state [0; 0] tr
  = (Normal (final_state, [0; 0]), tr ++ boxed_generation_calls).
Proof.
  run_model.
  rewrite <- !app_assoc. done.
Qed.

Lemma boxed_run :
  run boxed_optimizer 3 [1; 1] []
  = (Normal (final_state, [0; 0]), boxed_run_calls).
Proof.
  unfold run. erewrite bind_Normal by apply boxed_init.
  unfold getAdvancedOption. cbn [advancedBoolOptions boxed_optimizer].
  rewrite lookup_empty, ret_bind.
  unfold SimTK_CMAES_PRINT. cbn [diagnosticsLevel boxed_optimizer].
  change (Z.testbit 3 0) with true. cbn match. rewrite emit_bind.
  cbn [generations]. change (@cmaes_TestForTermination scripted initial_state)
    with (@None string).
  cbn iota.
  erewrite bind_Normal by apply boxed_generation.
  change (@cmaes_TestForTermination scripted final_state)
    with (Some "MaxIter").
  cbn iota. unfold boxed_run_calls. cbn [mret M_ret app]. done.
Qed.

Lemma boxed_optimize :
  optimize boxed_optimizer 3 [1; 1] []
  = (Normal (0, [2; 2]), boxed_run_calls ++ boxed_wrap_up_calls).
Proof.
  unfold optimize. erewrite bind_Normal by apply boxed_check.
  erewrite bind_Normal by apply boxed_run.
  unfold wrap_up. run_model. done.
Qed.





End ScenarioRun.

(** ** The statements about the optimizer *)

Section Statements.
Import Scenario.
Local Open Scope R_scope.

(** The scripted engine honours the sampler's contract. *)
Lemma scripted_contract : @cmaes_contract scripted.
Proof.
  split.
  - intros [p e] i k Hk. cbn. destruct (s_script e); [done|].
    cbn. by apply list_lookup_insert_ne.
  - intros [p e] i. cbn. by destruct (s_script e).
Qed.

(** C1.  When box limits are present, every point that a run of [optimize]
    hands to the objective function, and every offspring of the population
    on which it calls [cmaes_UpdateDistribution], satisfies
    [L_j <= x_j <= U_j] in every coordinate [j] below the dimension: the
    re-sampling loop has run to completion on each of the [lambda] offspring
    before either call is made.  And the state with which the generation
    loop goes on is the one that [cmaes_UpdateDistribution] made of such a
    population: when the loop returns, its state is the update of a
    population within the limits, unless the termination test fired before
    the first generation.  (The engine is any engine whose
    [cmaes_ReSampleSingle] redraws one offspring in place.) *)
Theorem offspring_within_limits `{engine_ok : cmaes_contract}
    (this : OptimizerRep) (fuel : nat) (results : Vector) :
  getHasLimits (getOptimizerSystem this) = true →
  (∀ e, e ∈ (optimize this fuel results []).2 →
     (∀ x status, e = CallObjectiveFunc x status → within_limits this x)
     ∧ (∀ evo funvals, e = CallUpdateDistribution evo funvals →
          population_within_limits this evo))
  ∧ (∀ rounds budget evo funvals tr evo' funvals' tr',
       generations this rounds budget evo funvals tr
       = (Normal (evo', funvals'), tr') →
       (is_Some (cmaes_TestForTermination evo)
        ∧ evo' = evo ∧ funvals' = funvals)
       ∨ ∃ filtered,
           population_within_limits this filtered
           ∧ evo' = cmaes_UpdateDistribution filtered funvals').
Proof.
  intros Hlim. split.
  - intros e He.
    destruct (optimize_traces this fuel results Hlim [] (Forall_nil_2 _))
      as [Hall _].
    rewrite Forall_forall in Hall. specialize (Hall e He).
    split; intros; subst e; exact Hall.
  - intros rounds budget evo funvals tr evo' funvals' tr' Hrun.
    destruct (generations_traces this (λ _, True) I (λ _, I)
                (λ _ _ _, I) (λ _ _ _, I) rounds budget evo funvals Hlim
                tr (Forall_true _ _ (λ _, I))) as [_ Hpost].
    rewrite Hrun in Hpost.
    destruct (Hpost _ eq_refl) as [[Hterm [= -> ->]] | Hadapted]; auto.
Qed.

Lemma offspring_within_limits_witness :
  (∀ e, e ∈ (optimize boxed_optimizer 3 [1; 1] []).2 →
     (∀ x status, e = CallObjectiveFunc x status →
        within_limits boxed_optimizer x)
     ∧ (∀ evo funvals, e = CallUpdateDistribution evo funvals →
          population_within_limits boxed_optimizer evo))
  ∧ (∀ rounds budget evo funvals tr evo' funvals' tr',
       generations boxed_optimizer rounds budget evo funvals tr
       = (Normal (evo', funvals'), tr') →
       (is_Some (cmaes_TestForTermination evo)
        ∧ evo' = evo ∧ funvals' = funvals)
       ∨ ∃ filtered,
           population_within_limits boxed_optimizer filtered
           ∧ evo' = cmaes_UpdateDistribution filtered funvals').
Proof.
  apply (offspring_within_limits (engine_ok := scripted_contract)
           boxed_optimizer 3 [1; 1]).
  reflexivity.
Defined.

(** C2.  What the code does when the [sigma] option is unset or set to 0:
    the step size is 0.1, which is not the 0.3 of the documentation, and 0.1
    is what [cmaes_init_para] receives as standard deviation of every
    coordinate. *)
Theorem default_stepsize_is_one_tenth `{cmaes_interface}
    (this : OptimizerRep) :
  (advancedRealOptions this !! "sigma" = None
   ∨ advancedRealOptions this !! "sigma" = Some 0) →
  init_stepsize this = 0.1
  ∧ init_stepsize this ≠ 0.3
  ∧ ∀ results dimension xstart stddev seed lambda filename,
      CallInitPara dimension xstart stddev seed lambda filename
        ∈ (init this results []).2 →
      stddev
      = replicate (Z.to_nat (getNumParameters (getOptimizerSystem this))) 0.1.
Proof.
  intros Hopt. pose proof (init_stepsize_default this Hopt) as Hsigma.
  split; [done|]. split; [rewrite Hsigma; lra|].
  intros results dimension xstart stddev seed lambda filename He.
  apply init_events in He as [He | [evo He]]; [|done].
  unfold init_call in He. injection He as _ _ -> _ _. by rewrite Hsigma.
Qed.

Lemma default_stepsize_is_one_tenth_witness :
  init_stepsize failing_optimizer = 0.1
  ∧ init_stepsize failing_optimizer ≠ 0.3
  ∧ ∀ results dimension xstart stddev seed lambda filename,
      CallInitPara dimension xstart stddev seed lambda filename
        ∈ (init failing_optimizer results []).2 →
      stddev
      = replicate
          (Z.to_nat (getNumParameters (getOptimizerSystem failing_optimizer)))
          0.1.
Proof.
  apply (default_stepsize_is_one_tenth failing_optimizer).
  left. reflexivity.
Defined.



(** C4.  With box limits present (and the point and both limit vectors
    holding at least [n] entries), an initial point one of whose coordinates
    is below its lower or above its upper limit makes [optimize] throw from
    [checkInitialPointIsFeasible], with the trace of calls untouched: the
    engine has not been initialised.  When there are no limits, or every
    coordinate is within its limits, the check returns and [optimize] goes
    on with the initialisation and the generations ([run]) and the
    wrap-up. *)
Theorem initial_point_check `{cmaes_interface} (this : OptimizerRep)
    (fuel : nat) (results : Vector) (tr : list Event) :
  let sys := getOptimizerSystem this in
  let n := Z.to_nat (getNumParameters sys) in
  (getHasLimits sys = true →
   (n ≤ length results)%nat →
   (n ≤ length (lowerLimits sys))%nat →
   (n ≤ length (upperLimits sys))%nat →
   outside_limits this results →
   ∃ i xi lo hi,
     optimize this fuel results tr
     = (Throw (APIArgcheckFailed "CMAESOptimizer"
                 "checkInitialPointIsFeasible" i xi lo hi), tr))
  ∧ (getHasLimits sys = false ∨ within_limits this results →
     checkInitialPointIsFeasible this results tr = (Normal (), tr)
     ∧ optimize this fuel results tr
       = (run this fuel results ≫= λ '(evo, _), wrap_up this evo results) tr).
Proof.
  intros sys n. split.
  - intros Hlim Hx Hlo Hhi Hout.
    destruct (checkInitialPointIsFeasible_Throw this results tr
                Hlim Hx Hlo Hhi Hout) as (i & xi & lo & hi & Hcheck).
    exists i, xi, lo, hi. unfold optimize.
    by erewrite bind_Throw by exact Hcheck.
  - intros Hok.
    pose proof (checkInitialPointIsFeasible_Normal this results tr Hok)
      as Hcheck.
    split; [done|]. unfold optimize.
    by erewrite bind_Normal by exact Hcheck.
Qed.

Lemma initial_point_check_witness :
  (∃ i xi lo hi,
     optimize failing_optimizer 3 [1; 9] []
     = (Throw (APIArgcheckFailed "CMAESOptimizer"
                 "checkInitialPointIsFeasible" i xi lo hi), []))
  ∧ checkInitialPointIsFeasible failing_optimizer [1; 1] [] = (Normal (), [])
  ∧ optimize failing_optimizer 3 [1; 1] []
    = (run failing_optimizer 3 [1; 1]
       ≫= λ '(evo, _), wrap_up failing_optimizer evo [1; 1]) [].
Proof.
  destruct (initial_point_check failing_optimizer 3 [1; 9] []) as [Hbad _].
  destruct (initial_point_check failing_optimizer 3 [1; 1] []) as [_ Hgood].
  split.
  - apply Hbad; [reflexivity | cbn; lia ..|].
    exists 1%nat. split; [cbn; lia|]. right. cbn. lra.
  - apply Hgood. right. intros j Hj.
    change (j < 2)%nat in Hj.
    destruct j as [|[|j]]; [| |lia];
      exists 1, 0, 5; cbn; repeat split; lra.
Defined.

(** C5.  What the code does with [maxTimeFractionForEigendecomposition]:
    it checks nothing.  Whatever real number the option holds, inside (0,1]
    or not, [processSettingsAfterCMAESInit] returns with the number stored
    in [evo.sp.updateCmode.maxtime] (given that the check of
    [stopMaxFunEvals], the option before it, passes), and [init] raises
    nothing on its account: if [init] returns, it returns what
    [cmaes_init_final] made of a state that holds the number, and if it
    fails, the library has refused such a state.  The option checked just
    before it is treated otherwise: a negative [stopMaxFunEvals] makes
    [processSettingsAfterCMAESInit] throw. *)
Theorem maxtime_is_stored_unchecked `{cmaes_interface} (this : OptimizerRep)
    (results : Vector) (tr : list Event) (maxtime : Real) :
  advancedRealOptions this !! "maxTimeFractionForEigendecomposition"
  = Some maxtime →
  unset_or_nonneg this "seed" →
  unset_or_nonneg this "stopMaxFunEvals" →
  (∀ evo0, ∃ evo,
     processSettingsAfterCMAESInit this evo0 tr = (Normal evo, tr)
     ∧ updateCmode_maxtime (sp evo) = maxtime)
  ∧ (∀ r tr', init this results tr = (Normal r, tr') →
       ∃ evo,
         updateCmode_maxtime (sp evo) = maxtime
         ∧ cmaes_init_final evo = Some r)
  ∧ (∀ e tr', init this results tr = (Throw e, tr') →
       e = ConfigError
       ∧ ∃ evo,
           updateCmode_maxtime (sp evo) = maxtime
           ∧ cmaes_init_final evo = None)
  ∧ (∀ (that : OptimizerRep) evals evo0,
       advancedIntOptions that !! "stopMaxFunEvals" = Some evals →
       (evals < 0)%Z →
       processSettingsAfterCMAESInit that evo0 tr
       = (Throw (ValueWasNegative "stopMaxFunEvals" evals
                   "CMAESOptimizer::processSettingsAfterCMAESInit"), tr)).
Proof.
  intros Hopt Hseed Hevals. split; [|split; [|split]].
  - intros evo0.
    destruct (processSettingsAfterCMAESInit_Normal this evo0 tr Hevals)
      as (evo & Hevo & _ & Hmax).
    exists evo. split; [done | by apply Hmax].
  - intros r tr' Hreturn.
    destruct (init_inv_Normal this results tr r tr' Hreturn)
      as (evo & Hfinal & _ & _ & Hmax).
    exists evo. split; [by apply Hmax | done].
  - intros e tr' Hthrow.
    destruct (init_inv_Throw this results tr e tr' Hseed Hevals Hthrow)
      as (-> & evo & Hfinal & _ & Hmax).
    split; [done|]. exists evo. split; [by apply Hmax | done].
  - intros that evals evo0 Hset Hneg.
    by apply processSettingsAfterCMAESInit_Throw.
Qed.

Lemma maxtime_is_stored_unchecked_witness :
  (∀ evo0, ∃ evo,
     processSettingsAfterCMAESInit boxed_optimizer evo0 []
     = (Normal evo, [])
     ∧ updateCmode_maxtime (sp evo) = 2)
  ∧ (∀ r tr', init boxed_optimizer [1; 1] [] = (Normal r, tr') →
       ∃ evo,
         updateCmode_maxtime (sp evo) = 2
         ∧ cmaes_init_final evo = Some r)
  ∧ (∀ e tr', init boxed_optimizer [1; 1] [] = (Throw e, tr') →
       e = ConfigError
       ∧ ∃ evo,
           updateCmode_maxtime (sp evo) = 2
           ∧ cmaes_init_final evo = None)
  ∧ (∀ (that : OptimizerRep) evals evo0,
       advancedIntOptions that !! "stopMaxFunEvals" = Some evals →
       (evals < 0)%Z →
       processSettingsAfterCMAESInit that evo0 []
       = (Throw (ValueWasNegative "stopMaxFunEvals" evals
                   "CMAESOptimizer::processSettingsAfterCMAESInit"), [])).
Proof.
  apply (maxtime_is_stored_unchecked boxed_optimizer [1; 1] [] 2).
  - reflexivity.
  - intros v Hv. cbn in Hv. by rewrite lookup_singleton_ne in Hv.
  - intros v Hv. cbn in Hv. by rewrite lookup_singleton_ne in Hv.
Defined.

(** C6.  When the [lambda] option is unset or set to 0 and the dimension
    [n] is at least 2, the population size that [init] computes is
    [floor (4 + 3 ln n)]; once the check of [seed] has passed, [init] calls
    [cmaes_init_para] with it, and with no other [lambda]; and what [init]
    returns is what [cmaes_init_final] made of a state built from the one
    that [cmaes_init_para] returned for that population size. *)
Theorem default_lambda `{cmaes_interface} (this : OptimizerRep) :
  let n := getNumParameters (getOptimizerSystem this) in
  (advancedIntOptions this !! "lambda" = None
   ∨ advancedIntOptions this !! "lambda" = Some 0%Z) →
  (2 ≤ n)%Z →
  init_numsamples this = Zfloor (4 + 3 * ln (IZR n))
  ∧ (∀ results,
       unset_or_nonneg this "seed" →
       ∃ stddev seed,
         CallInitPara n results stddev seed
           (Zfloor (4 + 3 * ln (IZR n))) "writeonly"
         ∈ (init this results []).2)
  ∧ (∀ results dimension xstart stddev seed lambda filename,
       CallInitPara dimension xstart stddev seed lambda filename
         ∈ (init this results []).2 →
       lambda = Zfloor (4 + 3 * ln (IZR n)))
  ∧ (∀ results tr r tr',
       init this results tr = (Normal r, tr') →
       ∃ stddev seed evo,
         cmaes_init_final evo = Some r
         ∧ engine evo
           = engine (cmaes_init_para n results stddev seed
                       (Zfloor (4 + 3 * ln (IZR n))) "writeonly")).
Proof.
  intros n Hopt Hn.
  assert (Hlambda : init_numsamples this = Zfloor (4 + 3 * ln (IZR n))).
  { apply init_numsamples_default; [done | lia]. }
  split; [done|]. split; [|split].
  - intros results Hseed.
    pose proof (init_calls_init_para this results [] Hseed) as Hcall.
    unfold init_call in Hcall. rewrite Hlambda in Hcall. eauto.
  - intros results dimension xstart stddev seed lambda filename He.
    apply init_events in He as [He | [evo He]]; [|done].
    unfold init_call in He. by injection He as _ _ _ _ -> _.
  - intros results tr r tr' Hreturn.
    destruct (init_inv_Normal this results tr r tr' Hreturn)
      as (evo & Hfinal & Hengine & _).
    unfold init_para_state in Hengine. rewrite Hlambda in Hengine.
    eauto.
Qed.

Lemma default_lambda_witness :
  init_numsamples (plain_optimizer (Cigtab 4)) = Zfloor (4 + 3 * ln (IZR 4))
  ∧ (∀ results,
       unset_or_nonneg (plain_optimizer (Cigtab 4)) "seed" →
       ∃ stddev seed,
         CallInitPara 4 results stddev seed
           (Zfloor (4 + 3 * ln (IZR 4))) "writeonly"
         ∈ (init (plain_optimizer (Cigtab 4)) results []).2)
  ∧ (∀ results dimension xstart stddev seed lambda filename,
       CallInitPara dimension xstart stddev seed lambda filename
         ∈ (init (plain_optimizer (Cigtab 4)) results []).2 →
       lambda = Zfloor (4 + 3 * ln (IZR 4)))
  ∧ (∀ results tr r tr',
       init (plain_optimizer (Cigtab 4)) results tr = (Normal r, tr') →
       ∃ stddev seed evo,
         cmaes_init_final evo = Some r
         ∧ engine evo
           = engine (cmaes_init_para 4 results stddev seed
                       (Zfloor (4 + 3 * ln (IZR 4))) "writeonly")).
Proof.
  apply (default_lambda (plain_optimizer (Cigtab 4))).
  - left. reflexivity.
  - cbn. lia.
Defined.

(** C7.  Once the generation loop has terminated, in a state [evo] in which
    [cmaes_TestForTermination] gave a reason to stop, [optimize] returns:
    its value is the best-ever objective value of [evo], and the caller's
    vector leaves with its first [n] entries overwritten by the best-ever
    point (the vector and the best-ever point hold at least [n] entries). *)
Theorem optimize_returns_best_ever `{cmaes_interface} (this : OptimizerRep)
    (fuel : nat) (results : Vector) (tr tr1 : list Event)
    (evo : cmaes_t) (funvals : list Real) :
  let n := Z.to_nat (getNumParameters (getOptimizerSystem this)) in
  checkInitialPointIsFeasible this results tr = (Normal (), tr) →
  run this fuel results tr = (Normal (evo, funvals), tr1) →
  (n ≤ length results)%nat →
  (n ≤ length (cmaes_GetPtr evo "xbestever"))%nat →
  is_Some (cmaes_TestForTermination evo)
  ∧ ∃ tr2,
      optimize this fuel results tr
      = (Normal (cmaes_Get evo "fbestever",
                 take n (cmaes_GetPtr evo "xbestever") ++ drop n results),
         tr2).
Proof.
  intros n Hcheck Hrun Hres Hbest. split.
  - by eapply run_terminated.
  - destruct (wrap_up_Normal this evo results tr1 Hbest Hres) as [tr2 Hwrap].
    exists tr2. unfold optimize.
    erewrite bind_Normal by exact Hcheck.
    erewrite bind_Normal by exact Hrun. exact Hwrap.
Qed.

Lemma optimize_returns_best_ever_witness :
  is_Some (cmaes_TestForTermination final_state)
  ∧ ∃ tr2,
      optimize boxed_optimizer 3 [1; 1] []
      = (Normal (cmaes_Get final_state "fbestever",
                 take 2 (cmaes_GetPtr final_state "xbestever")
                 ++ drop 2 [1; 1]),
         tr2).
Proof.
  apply (optimize_returns_best_ever boxed_optimizer 3 [1; 1] []
           boxed_run_calls final_state [0; 0]).
  - apply boxed_check.
  - apply boxed_run.
  - cbn. lia.
  - cbn. lia.
Defined.


End Statements.

End CMAESOptimizerFacts.

(** * Further properties of the optimizer *)

Module CMAESOptimizerMore.
Import OptimizerSystems CMAESOptimizer CMAESOptimizerFacts.

(** ** Construction and initialisation *)

Section Initialisation.
Context `{cmaes_interface} (this : OptimizerRep).
Local Abbreviation sys := (getOptimizerSystem this).
Local Abbreviation n := (getNumParameters (getOptimizerSystem this)).
Local Open Scope R_scope.

(** X6.  A negative [seed] option is refused before the engine is touched:
    [init] throws [ValueWasNegative] without having made any call, and so
    does [optimize] once the initial point has passed its check. *)
Theorem negative_seed_rejected (fuel : nat) (results : Vector)
    (tr : list Event) (seed : Z) :
  advancedIntOptions this !! "seed" = Some seed →
  (seed < 0)%Z →
  let e := ValueWasNegative "seed" seed
             "CMAESOptimizer::processSettingsBeforeCMAESInit" in
  init this results tr = (Throw e, tr)
  ∧ (getHasLimits sys = false ∨ within_limits this results →
     optimize this fuel results tr = (Throw e, tr)).
Proof.
  intros Hseed Hneg e.
  pose proof (init_Throw_seed this results tr seed Hseed Hneg) as Hinit.
  split; [done|]. intros Hok. unfold optimize.
  erewrite bind_Normal by (by apply checkInitialPointIsFeasible_Normal).
  assert (Hrun : run this fuel results tr = (Throw e, tr))
    by (unfold run; by erewrite bind_Throw by exact Hinit).
  by erewrite bind_Throw by exact Hrun.
Qed.

(** X7.  A negative [stopMaxFunEvals] option is noticed only after
    [cmaes_init_para] has been called: [optimize] then throws
    [ValueWasNegative] having made that one call and no other -- neither
    [cmaes_init_final] nor [cmaes_exit]. *)
Theorem negative_stopMaxFunEvals_rejected (fuel : nat) (results : Vector)
    (tr : list Event) (evals : Z) :
  advancedIntOptions this !! "stopMaxFunEvals" = Some evals →
  (evals < 0)%Z →
  unset_or_nonneg this "seed" →
  getHasLimits sys = false ∨ within_limits this results →
  optimize this fuel results tr
  = (Throw (ValueWasNegative "stopMaxFunEvals" evals
              "CMAESOptimizer::processSettingsAfterCMAESInit"),
     tr ++ [init_call this results]).
Proof.
  intros Hopt Hneg Hseed Hok. unfold optimize.
  erewrite bind_Normal by (by apply checkInitialPointIsFeasible_Normal).
  pose proof (init_Throw_stopMaxFunEvals this results tr evals Hseed Hopt Hneg)
    as Hinit.
  erewrite bind_Throw; [done|].
  unfold run. by erewrite bind_Throw by exact Hinit.
Qed.

(** X9.  Neither the [lambda] nor the [sigma] option is validated by the
    optimizer: any non-zero values, negative ones included, are handed to
    [cmaes_init_para] unchanged, [sigma] as the standard deviation of every
    coordinate.  When the checks of [seed] and [stopMaxFunEvals] pass,
    [init] makes that call and raises nothing of its own: if it returns,
    it returns what [cmaes_init_final] made of a state built from the one
    that [cmaes_init_para] returned for these values, and if it fails, the
    failure is the library's. *)
Theorem lambda_and_sigma_passed_unchecked (results : Vector)
    (tr : list Event) (lambda : Z) (sigma : Real) :
  advancedIntOptions this !! "lambda" = Some lambda → lambda ≠ 0%Z →
  advancedRealOptions this !! "sigma" = Some sigma → sigma ≠ 0 →
  unset_or_nonneg this "seed" →
  unset_or_nonneg this "stopMaxFunEvals" →
  let seed := default 0%Z (advancedIntOptions this !! "seed") in
  let stddev := replicate (Z.to_nat n) sigma in
  CallInitPara n results stddev seed lambda "writeonly"
    ∈ (init this results []).2
  ∧ (∀ dimension xstart stddev' seed' lambda' filename,
       CallInitPara dimension xstart stddev' seed' lambda' filename
         ∈ (init this results []).2 →
       stddev' = stddev ∧ lambda' = lambda)
  ∧ (∀ r tr', init this results tr = (Normal r, tr') →
       ∃ evo,
         cmaes_init_final evo = Some r
         ∧ engine evo
           = engine (cmaes_init_para n results stddev seed lambda
                       "writeonly"))
  ∧ (∀ e tr', init this results tr = (Throw e, tr') → e = ConfigError).
Proof.
  intros Hlam Hlam0 Hsig Hsig0 Hseed Hevals seed stddev.
  assert (Hnumsamples : init_numsamples this = lambda).
  { unfold init_numsamples, getAdvancedOption. rewrite Hlam.
    by destruct (Z.eqb_spec lambda 0). }
  assert (Hstepsize : init_stepsize this = sigma).
  { unfold init_stepsize, getAdvancedOption. rewrite Hsig.
    by rewrite Req_bool_false by (intros Heq; apply Hsig0; lra). }
  split; [|split; [|split]].
  - pose proof (init_calls_init_para this results [] Hseed) as Hcall.
    unfold init_call in Hcall. by rewrite Hnumsamples, Hstepsize in Hcall.
  - intros dimension xstart stddev' seed' lambda' filename He.
    apply init_events in He as [He | [evo He]]; [|done].
    unfold init_call in He. injection He as _ _ -> _ -> _.
    by rewrite Hnumsamples, Hstepsize.
  - intros r tr' Hreturn.
    destruct (init_inv_Normal this results tr r tr' Hreturn)
      as (evo & Hfinal & Hengine & _).
    exists evo. split; [done|]. rewrite Hengine. unfold init_para_state.
    by rewrite Hnumsamples, Hstepsize.
  - intros e tr' Hthrow.
    by destruct (init_inv_Throw this results tr e tr' Hseed Hevals Hthrow).
Qed.

(** X10.  The constructor accepts exactly the dimensions from 2 to
    [INT_MAX] and throws [ValueOutOfRange] for the others, in either case
    without making a call; and for an accepted dimension the default
    population size lies between 5 and 97, so it is a valid [lambda >= 2]
    and fits an [int]. *)
Theorem constructor_and_default_population (tr : list Event) :
  ((2 ≤ n ≤ INT_MAX)%Z →
   CMAESOptimizer_ctor this tr = (Normal (), tr)
   ∧ (advancedIntOptions this !! "lambda" = None
      ∨ advancedIntOptions this !! "lambda" = Some 0%Z →
      (5 ≤ init_numsamples this ≤ 97)%Z))
  ∧ (¬ (2 ≤ n ≤ INT_MAX)%Z →
     CMAESOptimizer_ctor this tr
     = (Throw (ValueOutOfRange "nParameters" 2 n INT_MAX "CMAESOptimizer"),
        tr)).
Proof.
  unfold CMAESOptimizer_ctor, SimTK_VALUECHECK_ALWAYS. split.
  - intros Hn. rewrite decide_True by done. split; [done|].
    intros Hopt.
    pose proof (init_numsamples_default_fits_int this Hopt ltac:(lia)) as Hfit.
    split; [|lia].
    rewrite init_numsamples_default by (done || lia).
    rewrite (Rplus_comm 4), (Zfloor_addz 4).
    assert (1 ≤ Zfloor (3 * ln (IZR n)))%Z; [|lia].
    apply (Zfloor_lub 1).
    assert (ln 2 <= ln (IZR n)).
    { destruct (decide (n = 2%Z)) as [->|Hne]; [lra|].
      left. apply ln_increasing; [lra|]. apply (IZR_lt 2). lia. }
    pose proof ln_lt_2. lra.
  - intros Hn. by rewrite decide_False.
Qed.

End Initialisation.

(** ** More on the check of the initial point *)

Section InitialPointMore.
Context `{cmaes_interface} (this : OptimizerRep).
Local Abbreviation sys := (getOptimizerSystem this).
Local Abbreviation n := (Z.to_nat (getNumParameters (getOptimizerSystem this))).
Local Open Scope R_scope.

Lemma check_loop_first (x : Vector) (start count : nat) tr
    (i : nat) (xi lo hi : Real) :
  (start ≤ i < start + count)%nat →
  x !! i = Some xi → lowerLimits sys !! i = Some lo →
  upperLimits sys !! i = Some hi →
  xi < lo ∨ hi < xi →
  (∀ j, (start ≤ j < i)%nat →
     ∃ xj lj hj, x !! j = Some xj ∧ lowerLimits sys !! j = Some lj
       ∧ upperLimits sys !! j = Some hj ∧ lj <= xj <= hj) →
  for_range start count
    (λ (i : nat) (_ : ()),
       lo ← read (lowerLimits sys !! i);
       xi ← read (x !! i);
       hi ← read (upperLimits sys !! i);
       SimTK_APIARGCHECK4_ALWAYS (Rleb lo xi && Rleb xi hi)
         "CMAESOptimizer" "checkInitialPointIsFeasible" i xi lo hi) () tr
  = (Throw (APIArgcheckFailed "CMAESOptimizer" "checkInitialPointIsFeasible"
              i xi lo hi), tr).
Proof.
  revert start. induction count as [|count IH];
    intros start Hi Hx Hlo Hhi Hout Hbefore; [lia|].
  cbn [for_range]. destruct (decide (start = i)) as [->|Hne].
  - rewrite Hx, Hlo, Hhi. cbn [read]. rewrite !ret_bind.
    assert (Rleb lo xi && Rleb xi hi = false) as ->.
    { destruct Hout; [rewrite Rleb_false by done; done|].
      rewrite (Rleb_false xi hi) by done. apply andb_false_r. }
    reflexivity.
  - destruct (Hbefore start ltac:(lia))
      as (xj & lj & hj & -> & -> & -> & Hl & Hh).
    cbn [read]. rewrite !ret_bind.
    rewrite Rleb_true, Rleb_true by done.
    cbn [andb SimTK_APIARGCHECK4_ALWAYS]. rewrite ret_bind.
    apply IH; try done; [lia|]. intros j Hj. apply Hbefore. lia.
Qed.

(** X11.  [checkInitialPointIsFeasible] reports the first coordinate that is
    out of its limits: when coordinate [i] violates a limit and all
    coordinates before it are within theirs, the exception carries [i], the
    value [x[i]] and the two limits of that coordinate -- whatever the
    coordinates after [i] are -- and no call has been made. *)
Theorem first_infeasible_coordinate_reported (x : Vector) (tr : list Event)
    (i : nat) (xi lo hi : Real) :
  getHasLimits sys = true →
  (i < n)%nat →
  x !! i = Some xi →
  lowerLimits sys !! i = Some lo →
  upperLimits sys !! i = Some hi →
  xi < lo ∨ hi < xi →
  (∀ j, (j < i)%nat →
     ∃ xj lj hj, x !! j = Some xj ∧ lowerLimits sys !! j = Some lj
       ∧ upperLimits sys !! j = Some hj ∧ lj <= xj <= hj) →
  checkInitialPointIsFeasible this x tr
  = (Throw (APIArgcheckFailed "CMAESOptimizer" "checkInitialPointIsFeasible"
              i xi lo hi), tr).
Proof.
  intros Hlim Hi Hx Hlo Hhi Hout Hbefore.
  unfold checkInitialPointIsFeasible. rewrite Hlim.
  apply check_loop_first; try done; [lia|].
  intros j Hj. apply Hbefore. lia.
Qed.

(** X12.  The optimum that each bounded test system declares is a feasible
    starting point: for an optimizer on [DropWave], on [Easom] or on
    [Ackley] in any dimension, [checkInitialPointIsFeasible] accepts the
    system's [optimalParameters()]. *)
Theorem declared_optimum_is_feasible (S : TestOptimizerSystem)
    (tr : list Event) :
  S = DropWave ∨ S = Easom ∨ (∃ normRMS dimension, S = Ackley normRMS dimension) →
  getOptimizerSystem this = S →
  checkInitialPointIsFeasible this (optimalParameters S) tr = (Normal (), tr).
Proof.
  intros HS Hsys. apply checkInitialPointIsFeasible_Normal. right.
  intros j Hj. rewrite Hsys in *.
  destruct HS as [-> | [-> | (normRMS & dimension & ->)]];
    cbn [getNumParameters system DropWave Easom Ackley optimalParameters
         lowerLimits upperLimits] in *.
  - exists 0, (Ropp 5.12), 5.12.
    rewrite list_lookup_fmap, !lookup_replicate_2 by done.
    repeat split; try done; lra.
  - exists PI, (Ropp 100), 100.
    rewrite list_lookup_fmap, !lookup_replicate_2 by done.
    pose proof PI_RGT_0. pose proof PI_4.
    repeat split; try done; lra.
  - exists 0, (Ropp 32.768), 32.768.
    rewrite list_lookup_fmap, !lookup_replicate_2 by done.
    repeat split; try done; lra.
Qed.

End InitialPointMore.


(** ** The calls a run can make *)

Section Calls.
Context `{cmaes_interface} (this : OptimizerRep).
Local Abbreviation sys := (getOptimizerSystem this).
Local Abbreviation n := (Z.to_nat (getNumParameters (getOptimizerSystem this))).

Section RunCalls.
(** [Ψ] holds of every call that may be made other than [cmaes_exit]. *)
Context (results : Vector) (Ψ : Event → Prop).
Context (Hsub : ∀ e, may_call this results e → e ≠ CallExit → Ψ e).

Lemma resample_until_feasible_calls (fuel : nat) (evo : cmaes_t) (i : nat) :
  getHasLimits sys = true →
  traces Ψ (resample_until_feasible this fuel evo i) (λ _, True).
Proof.
  intros Hlim. revert evo. induction fuel as [|fuel IH]; intros evo;
    cbn [resample_until_feasible]; [apply traces_timeout|].
  eapply traces_bind with (P := λ _, True); [by apply traces_read|].
  intros x _.
  eapply traces_bind with (P := λ _, True); [by apply traces_read|].
  intros [] _; [by apply traces_ret|].
  eapply traces_bind with (P := λ _, True);
    [apply traces_call; [by apply Hsub | done]|].
  intros evo' _. apply IH.
Qed.

Lemma resample_population_calls (fuel budget : nat) (evo : cmaes_t)
    (i : nat) :
  getHasLimits sys = true →
  traces Ψ (resample_population this fuel budget evo i) (λ _, True).
Proof.
  intros Hlim. revert evo i. induction fuel as [|fuel IH]; intros evo i;
    cbn [resample_population]; [apply traces_timeout|].
  destruct (Rltb _ _); [|by apply traces_ret].
  eapply traces_bind with (P := λ _, True);
    [by apply resample_until_feasible_calls|].
  intros evo' _. apply IH.
Qed.

Lemma evaluate_population_calls (fuel : nat) (evo : cmaes_t) (i : nat)
    (funvals : list Real) :
  traces Ψ (evaluate_population this fuel evo i funvals) (λ _, True).
Proof.
  revert i funvals. induction fuel as [|fuel IH]; intros i funvals;
    cbn [evaluate_population]; [apply traces_timeout|].
  destruct (Rltb _ _); [|by apply traces_ret].
  eapply traces_bind with (P := λ _, True); [by apply traces_read|].
  intros x _.
  eapply traces_bind with (P := λ _, True); [by apply traces_read|].
  intros f _.
  eapply traces_bind with (P := λ _, True).
  { unfold objectiveFuncWrapper. case_decide.
    - apply traces_ret_bind.
      eapply traces_bind with (P := λ _, True).
      + unfold call_objectiveFunc.
        eapply traces_bind with (P := λ _, True); [by apply traces_read|].
        intros r _. apply traces_call; [|done]. apply Hsub; [|done].
        cbn [may_call]. rewrite length_take. lia.
      + intros [status f'] _.
        destruct (status =? 0)%Z; [by apply traces_ret | apply traces_throw].
    - eapply traces_bind with (P := λ _, False); [apply traces_undefined|].
      intros ? []. }
  intros [ret f'] _.
  eapply traces_bind with (P := λ _, True); [by apply traces_write|].
  intros funvals' _. apply IH.
Qed.

Lemma generation_calls (fuel : nat) (evo : cmaes_t) (funvals : list Real) :
  traces Ψ (generation this fuel evo funvals) (λ _, True).
Proof.
  unfold generation.
  eapply traces_bind with (P := λ _, True);
    [apply traces_call; [by apply Hsub | done]|].
  intros evo1 _.
  eapply traces_bind with (P := λ _, True).
  { destruct (getHasLimits sys) eqn:Hlim;
      [by apply resample_population_calls | by apply traces_ret]. }
  intros evo' _.
  eapply traces_bind with (P := λ _, True);
    [apply evaluate_population_calls|].
  intros funvals' _.
  eapply traces_bind with (P := λ _, True);
    [apply traces_call; [by apply Hsub | done]|].
  intros evo2 _. by apply traces_ret.
Qed.

Lemma generations_calls (fuel budget : nat) (evo : cmaes_t)
    (funvals : list Real) :
  traces Ψ (generations this fuel budget evo funvals) (λ _, True).
Proof.
  revert evo funvals. induction fuel as [|fuel IH]; intros evo funvals;
    cbn [generations]; [apply traces_timeout|].
  destruct (cmaes_TestForTermination evo); [by apply traces_ret|].
  eapply traces_bind with (P := λ _, True); [apply generation_calls|].
  intros [evo' funvals'] _. apply IH.
Qed.

Lemma run_calls (fuel : nat) :
  traces Ψ (run this fuel results) (λ _, True).
Proof.
  unfold run.
  eapply traces_bind with (P := λ _, True).
  { apply init_traces; [|intros evo0]; apply Hsub; done. }
  intros [evo funvals] _. unfold getAdvancedOption.
  assert (Hrest : ∀ evo' : cmaes_t,
    traces Ψ (SimTK_CMAES_PRINT this
                (emit (Printf (cmaes_SayHello evo' +:+ newline)))
              ≫= λ _, generations this fuel fuel evo' funvals) (λ _, True)).
  { intros evo'.
    eapply traces_bind with (P := λ _, True);
      [|intros; apply generations_calls].
    unfold SimTK_CMAES_PRINT.
    destruct (Z.testbit _ _) eqn:Ebit; [|by apply traces_ret].
    apply traces_emit; [|done]. by apply Hsub. }
  destruct (advancedBoolOptions this !! "resume") as [[]|] eqn:Eres.
  - eapply traces_bind with (P := λ _, True); [|intros; apply Hrest].
    apply traces_call; [|done]. by apply Hsub.
  - apply traces_ret_bind, Hrest.
  - apply traces_ret_bind, Hrest.
Qed.

End RunCalls.

(** The copy loop of the wrap-up makes no call. *)
Lemma copy_loop_silent (optx : Vector) (start count : nat)
    (results : Vector) tr :
  (for_range start count
     (λ i results, xi ← read (optx !! i); write results i xi) results tr).2
  = tr.
Proof.
  revert start results. induction count as [|count IH];
    intros start results; cbn [for_range]; [done|].
  destruct (optx !! start) as [x|]; cbn [read]; [|done].
  rewrite ret_bind. unfold write. case_decide; [|done].
  rewrite ret_bind. apply IH.
Qed.

(** What the wrap-up does to the trace: if it returns, [cmaes_exit] is the
    last call and the only new [cmaes_exit]; if it does not, it has not
    called [cmaes_exit]; the other calls are as [may_call] says. *)
Lemma wrap_up_exit (evo : cmaes_t) (results original : Vector) tr :
  Forall (λ e, may_call this original e ∧ e ≠ CallExit) tr →
  match wrap_up this evo results tr with
  | (Normal _, tr') =>
      ∃ tr'', tr' = tr'' ++ [CallExit]
        ∧ Forall (λ e, may_call this original e ∧ e ≠ CallExit) tr''
  | (_, tr') => Forall (λ e, may_call this original e ∧ e ≠ CallExit) tr'
  end.
Proof.
  intros Htr. unfold wrap_up, SimTK_CMAES_PRINT, SimTK_CMAES_FILE.
  set (P := λ e, may_call this original e ∧ e ≠ CallExit) in *.
  assert (Hprint : ∀ (k : unit → M (Real * Vector)) text,
    (∀ tr1, Forall P tr1 →
       match k () tr1 with
       | (Normal _, tr') => ∃ tr'', tr' = tr'' ++ [CallExit] ∧ Forall P tr''
       | (_, tr') => Forall P tr'
       end) →
    match ((if Z.testbit (diagnosticsLevel this) 0
            then emit (Printf text) else mret ()) ≫= k) tr with
    | (Normal _, tr') => ∃ tr'', tr' = tr'' ++ [CallExit] ∧ Forall P tr''
    | (_, tr') => Forall P tr'
    end).
  { intros k text Hk. destruct (Z.testbit _ 0) eqn:Ebit.
    - rewrite emit_bind. apply Hk. apply Forall_app. split; [done|].
      constructor; [|done]. split; [exact Ebit | done].
    - rewrite ret_bind. by apply Hk. }
  apply Hprint. clear tr Htr Hprint. intros tr Htr.
  pose proof (copy_loop_silent (cmaes_GetPtr evo "xbestever") 0 n results tr)
    as Hsilent.
  unfold mbind at 1, M_bind at 1.
  match type of Hsilent with
  | (?loop).2 = _ => destruct loop as [[results'| | |] tr1]
  end; cbn [snd] in Hsilent; subst tr1; try done.
  destruct (Z.testbit (diagnosticsLevel this) 1) eqn:Ebit.
  - rewrite !emit_bind. cbn [mret M_ret]. eexists. split; [reflexivity|].
    rewrite !Forall_app. repeat split; try done.
    + constructor; [|done]. split; [|done]. cbn. split; [done|]. by left.
    + constructor; [|done]. split; [|done]. cbn. split; [done|]. by right.
  - rewrite !ret_bind, emit_bind. cbn [mret M_ret]. eexists. by split.
Qed.

End Calls.


(** ** The shape of the trace of a run *)

Section TraceShape.
Context `{cmaes_interface} (this : OptimizerRep).
Local Abbreviation sys := (getOptimizerSystem this).
Local Abbreviation n := (Z.to_nat (getNumParameters (getOptimizerSystem this))).

(** Every call of a run is one that [may_call] allows; [cmaes_exit] is
    called at most once, as the last call, and exactly when the run
    returns. *)
Lemma optimize_trace_shape (fuel : nat) (results : Vector) :
  match optimize this fuel results [] with
  | (Normal _, tr) =>
      ∃ tr', tr = tr' ++ [CallExit]
        ∧ Forall (λ e, may_call this results e ∧ e ≠ CallExit) tr'
  | (_, tr) => Forall (λ e, may_call this results e ∧ e ≠ CallExit) tr
  end.
Proof.
  set (P := λ e, may_call this results e ∧ e ≠ CallExit).
  unfold optimize.
  destruct (checkInitialPointIsFeasible_traces this P results []
              (Forall_nil_2 _)) as [Hcheck _].
  unfold mbind at 1, M_bind at 1.
  destruct (checkInitialPointIsFeasible this results [])
    as [[[]| | |] tr0]; cbn [snd] in Hcheck; try done.
  destruct (run_calls this results P (λ e He Hne, conj He Hne) fuel
              tr0 Hcheck) as [Hrun _].
  unfold mbind at 1, M_bind at 1.
  destruct (run this fuel results tr0) as [[[evo funvals]| | |] tr1];
    cbn [snd] in Hrun; try done.
  by apply wrap_up_exit.
Qed.

Lemma optimize_calls_allowed (fuel : nat) (results : Vector) (e : Event) :
  e ∈ (optimize this fuel results []).2 → may_call this results e.
Proof.
  intros He. pose proof (optimize_trace_shape fuel results) as Hshape.
  destruct (optimize this fuel results []) as [[v| | |] tr]; cbn [snd] in He.
  - destruct Hshape as (tr' & -> & Hall).
    apply elem_of_app in He as [He|He].
    + rewrite Forall_forall in Hall. by apply Hall.
    + apply list_elem_of_singleton in He as ->. done.
  - rewrite Forall_forall in Hshape. by apply Hshape.
  - rewrite Forall_forall in Hshape. by apply Hshape.
  - rewrite Forall_forall in Hshape. by apply Hshape.
Qed.

(** X13.  [cmaes_exit] is called exactly when [optimize] returns, and then
    once, as the last call.  A run that ends otherwise -- by an exception
    (even one thrown after [cmaes_init_para]), by an access outside an
    array, or unfinished -- never reaches [cmaes_exit]. *)
Theorem cmaes_exit_only_on_return (fuel : nat) (results : Vector) :
  let outcome := (optimize this fuel results []).1 in
  let calls := (optimize this fuel results []).2 in
  (CallExit ∈ calls ↔ ∃ v, outcome = Normal v)
  ∧ ((∃ v, outcome = Normal v) →
     ∃ before, calls = before ++ [CallExit] ∧ CallExit ∉ before).
Proof.
  pose proof (optimize_trace_shape fuel results) as Hshape.
  destruct (optimize this fuel results []) as [[v| | |] tr]; cbn [fst snd].
  - destruct Hshape as (tr' & -> & Hall).
    assert (Hnot : CallExit ∉ tr').
    { intros Hin. rewrite Forall_forall in Hall.
      by destruct (Hall _ Hin). }
    split; [|by eauto].
    split; [by eauto|]. intros _. apply elem_of_app. right.
    by apply list_elem_of_singleton.
  - split; [|by intros [? [=]]].
    split; [|by intros [? [=]]]. intros Hin.
    rewrite Forall_forall in Hshape. by destruct (Hshape _ Hin).
  - split; [|by intros [? [=]]].
    split; [|by intros [? [=]]]. intros Hin.
    rewrite Forall_forall in Hshape. by destruct (Hshape _ Hin).
  - split; [|by intros [? [=]]].
    split; [|by intros [? [=]]]. intros Hin.
    rewrite Forall_forall in Hshape. by destruct (Hshape _ Hin).
Qed.

(** X14.  Without box limits no offspring is ever re-sampled: a run on a
    system that has no limits never calls [cmaes_ReSampleSingle]. *)
Theorem no_resampling_without_limits (fuel : nat) (results : Vector)
    (i : nat) :
  getHasLimits sys = false →
  CallReSampleSingle i ∉ (optimize this fuel results []).2.
Proof.
  intros Hlim Hin. apply optimize_calls_allowed in Hin.
  cbn [may_call] in Hin. congruence.
Qed.

(** X15.  [cmaes_resume_distribution] is called only when the boolean
    option [resume] is set to true, and then on the fixed file
    [resumecmaes.dat]: the file name is not configurable. *)
Theorem resume_only_on_request (fuel : nat) (results : Vector)
    (filename : string) :
  CallResumeDistribution filename ∈ (optimize this fuel results []).2 →
  advancedBoolOptions this !! "resume" = Some true
  ∧ filename = "resumecmaes.dat".
Proof. intros Hin. by apply optimize_calls_allowed in Hin. Qed.

(** X16.  Only the two low bits of [diagnosticsLevel] matter, each for its
    own output: [optimize] prints only when bit 0 is set, and writes a file
    only when bit 1 is set, and then only the resume file
    [resumecmaes.dat] or the dump [allcmaes.dat]. *)
Theorem diagnostics_only_when_enabled (fuel : nat) (results : Vector) :
  (∀ text, Printf text ∈ (optimize this fuel results []).2 →
     Z.testbit (diagnosticsLevel this) 0 = true)
  ∧ (∀ key filename,
       CallWriteToFile key filename ∈ (optimize this fuel results []).2 →
       Z.testbit (diagnosticsLevel this) 1 = true
       ∧ ((key = "resume" ∧ filename = "resumecmaes.dat")
          ∨ (key = "all" ∧ filename = "allcmaes.dat"))).
Proof.
  split.
  - intros text Hin. by apply optimize_calls_allowed in Hin.
  - intros key filename Hin. by apply optimize_calls_allowed in Hin.
Qed.

End TraceShape.


(** ** One generation: the filter and the evaluation *)

Section Generation.
Context `{cmaes_interface} (this : OptimizerRep).
Local Abbreviation sys := (getOptimizerSystem this).
Local Abbreviation n := (Z.to_nat (getNumParameters (getOptimizerSystem this))).
Local Open Scope R_scope.

Lemma Rltb_INR (i k : nat) : Rltb (INR i) (INR k) = bool_decide (i < k)%nat.
Proof.
  case_bool_decide.
  - apply Rltb_true. by apply lt_INR.
  - apply Rltb_false. apply le_INR. lia.
Qed.

Lemma scan_offspring_within (x : Vector) (j count : nat) :
  (∀ j', (j ≤ j' < j + count)%nat →
     ∃ xj lo hi,
       x !! j' = Some xj ∧ lowerLimits sys !! j' = Some lo
       ∧ upperLimits sys !! j' = Some hi ∧ lo <= xj <= hi) →
  scan_offspring j count x (lowerLimits sys) (upperLimits sys) = Some true.
Proof.
  revert j. induction count as [|count IH]; intros j Hok; [done|].
  cbn [scan_offspring].
  destruct (Hok j ltac:(lia)) as (xj & lo & hi & -> & -> & -> & Hlo & Hhi).
  cbn [mbind option_bind].
  rewrite Rltb_false by done. rewrite Rltb_false by done.
  apply IH. intros j' Hj'. apply Hok. lia.
Qed.

(** X18.  The filter leaves a feasible population alone: when the [lambda]
    offspring just sampled all lie within the limits, the re-sampling loop
    returns the state it was given and calls [cmaes_ReSampleSingle] not
    once.  ([lambda] rounds of the outer loop and one of the inner loop
    suffice.) *)
Theorem feasible_population_is_kept (fuel budget lambda : nat)
    (evo : cmaes_t) (tr : list Event) :
  cmaes_Get evo "lambda" = INR lambda →
  (lambda < fuel)%nat →
  (0 < budget)%nat →
  population_within_limits this evo →
  resample_population this fuel budget evo 0 tr = (Normal evo, tr).
Proof.
  intros Hlam Hfuel Hbudget Hpop.
  assert (Hgen : ∀ i, (lambda - i < fuel)%nat →
            resample_population this fuel budget evo i tr = (Normal evo, tr)).
  { clear Hfuel. induction fuel as [|fuel IH]; intros i Hi; [lia|].
    cbn [resample_population]. rewrite Hlam, Rltb_INR.
    case_bool_decide as Hlt; [|done].
    destruct (Hpop i) as (x & Hx & Hbox); [rewrite Hlam; by apply lt_INR|].
    destruct budget as [|budget']; [lia|].
    cbn [resample_until_feasible]. rewrite Hx. cbn [read]. rewrite ret_bind.
    rewrite (scan_offspring_within x 0 n)
      by (intros j Hj; apply Hbox; lia).
    cbn [read]. rewrite !ret_bind. apply IH. lia. }
  apply Hgen. lia.
Qed.

(** The evaluation loop, from offspring [i] on, when the callback
    succeeds on every offspring. *)
Lemma evaluate_population_result (lambda : nat) (evo : cmaes_t) :
  cmaes_Get evo "lambda" = INR lambda →
  (∀ k, (k < lambda)%nat →
     ∃ x, rgrgx evo !! k = Some x ∧ (n ≤ length x)%nat
       ∧ ∀ f, ∃ f',
           objectiveFunc sys (take n x) true f = Some (0%Z, f')) →
  ∀ (fuel i : nat) (funvals : list Real) (tr : list Event),
    (lambda - i < fuel)%nat →
    (lambda ≤ length funvals)%nat →
    ∃ funvals' tr',
      evaluate_population this fuel evo i funvals tr = (Normal funvals', tr')
      ∧ length funvals' = length funvals
      ∧ (∀ k, (k < i ∨ lambda ≤ k)%nat → funvals' !! k = funvals !! k)
      ∧ (∀ k x f, (i ≤ k < lambda)%nat →
           rgrgx evo !! k = Some x → funvals !! k = Some f →
           ∃ f',
             objectiveFunc sys (take n x) true f = Some (0%Z, f')
             ∧ funvals' !! k = Some f').
Proof.
  intros Hlam Hrows fuel. induction fuel as [|fuel IH];
    intros i funvals tr Hfuel Hlen; [lia|].
  cbn [evaluate_population]. rewrite Hlam, Rltb_INR.
  case_bool_decide as Hlt.
  - destruct (Hrows i Hlt) as (x & Hx & Hxlen & Hobj).
    destruct (lookup_lt_is_Some_2 funvals i ltac:(lia)) as [f Hf].
    destruct (Hobj f) as [f' Hval].
    rewrite Hx, Hf. cbn [read]. rewrite !ret_bind.
    unfold objectiveFuncWrapper. rewrite decide_True by done.
    rewrite ret_bind. unfold call_objectiveFunc. rewrite Hval.
    cbn [read]. rewrite ret_bind.
    change ((call ?e ?a ≫= ?k) ≫= ?k')
      with (λ tr0, (k a ≫= k') (tr0 ++ [e])).
    cbn beta iota. cbn [fst Z.eqb]. rewrite !ret_bind.
    unfold write. rewrite decide_True by lia. rewrite ret_bind.
    destruct (IH (S i) (<[i:=f']> funvals)
                (tr ++ [CallObjectiveFunc (take n x) 0])
                ltac:(lia) ltac:(rewrite length_insert; lia))
      as (funvals' & tr' & Hrun & Hlen' & Hout & Hin).
    exists funvals', tr'. split; [done|].
    split; [by rewrite Hlen', length_insert|]. split.
    + intros k Hk. rewrite Hout by lia.
      apply list_lookup_insert_ne. lia.
    + intros k y g Hk Hy Hg. destruct (decide (k = i)) as [->|Hne].
      * assert (y = x) as -> by congruence.
        assert (g = f) as -> by congruence.
        exists f'. split; [done|].
        rewrite Hout by lia. apply list_lookup_insert_eq. lia.
      * apply (Hin k y g); [lia | done |].
        by rewrite list_lookup_insert_ne by done.
  - exists funvals, tr. repeat split; try done. intros k x f Hk. lia.
Qed.

(** X19.  The evaluation loop of a generation, given [lambda + 1] rounds,
    on a population of [lambda] offspring of at least [n] coordinates for
    which the callback reports success (status 0): it returns; entry
    [k < lambda] of [funvals] then holds what the objective made of the old
    entry [k] at the first [n] coordinates of offspring [k] (the old entry
    is passed in, not reset), and the entries from [lambda] on are
    untouched. *)
Theorem evaluation_fills_funvals (lambda fuel : nat) (evo : cmaes_t)
    (funvals : list Real) (tr : list Event) :
  cmaes_Get evo "lambda" = INR lambda →
  (∀ k, (k < lambda)%nat →
     ∃ x, rgrgx evo !! k = Some x ∧ (n ≤ length x)%nat
       ∧ ∀ f, ∃ f',
           objectiveFunc sys (take n x) true f = Some (0%Z, f')) →
  (lambda < fuel)%nat →
  (lambda ≤ length funvals)%nat →
  ∃ funvals' tr',
    evaluate_population this fuel evo 0 funvals tr = (Normal funvals', tr')
    ∧ length funvals' = length funvals
    ∧ (∀ k, (lambda ≤ k)%nat → funvals' !! k = funvals !! k)
    ∧ (∀ k x f, (k < lambda)%nat →
         rgrgx evo !! k = Some x → funvals !! k = Some f →
         ∃ f',
           objectiveFunc sys (take n x) true f = Some (0%Z, f')
           ∧ funvals' !! k = Some f').
Proof.
  intros Hlam Hrows Hfuel Hlen.
  destruct (evaluate_population_result lambda evo Hlam Hrows fuel 0
              funvals tr ltac:(lia) Hlen)
    as (funvals' & tr' & Hrun & Hlen' & Hout & Hin).
  exists funvals', tr'. repeat split; try done.
  - intros k Hk. apply Hout. lia.
  - intros k x f Hk. apply Hin. lia.
Qed.

End Generation.


(** ** The test systems under the optimizer *)

Section Accumulation.
Context `{cmaes_interface} (this : OptimizerRep).
Local Abbreviation n := (Z.to_nat (getNumParameters (getOptimizerSystem this))).
Local Open Scope R_scope.

(** X20.  Under the optimizer the values of [Rosenbrock] pile up: the
    evaluation loop hands the old [funvals[k]] to the callback, which only
    adds to it, so after the loop entry [k] is its old content plus the
    Rosenbrock function of offspring [k] -- not the function value, unless
    the entry was 0. *)
Theorem Rosenbrock_values_accumulate (dimension : Z) (lambda fuel : nat)
    (evo : cmaes_t) (funvals : list Real) (tr : list Event) :
  getOptimizerSystem this = Rosenbrock dimension →
  (1 ≤ dimension ≤ INT_MAX)%Z →
  cmaes_Get evo "lambda" = INR lambda →
  (∀ k, (k < lambda)%nat →
     ∃ x, rgrgx evo !! k = Some x ∧ (n ≤ length x)%nat) →
  (lambda < fuel)%nat →
  (lambda ≤ length funvals)%nat →
  ∃ funvals' tr',
    evaluate_population this fuel evo 0 funvals tr = (Normal funvals', tr')
    ∧ ∀ k x f, (k < lambda)%nat →
        rgrgx evo !! k = Some x → funvals !! k = Some f →
        funvals' !! k = Some (f + rosenbrock n (take n x)).
Proof.
  intros Hsys Hd Hlam Hrows Hfuel Hlen.
  assert (Hn : n = Z.to_nat dimension) by (by rewrite Hsys).
  assert (Hvalue : ∀ x f, (n ≤ length x)%nat →
    objectiveFunc (getOptimizerSystem this) (take n x) true f
    = Some (0%Z, f + rosenbrock n (take n x))).
  { intros x f Hx. rewrite Hsys at 1.
    rewrite TestSystemOptima.Rosenbrock_objectiveFunc_eq;
      [by rewrite <- Hn | done | rewrite length_take; lia]. }
  destruct (evaluate_population_result this lambda evo Hlam) with
    (fuel := fuel) (i := 0%nat) (funvals := funvals) (tr := tr)
    as (funvals' & tr' & Hrun & _ & _ & Hin); [|lia|done|].
  { intros k Hk. destruct (Hrows k Hk) as (x & Hx & Hxlen).
    exists x. repeat split; try done. intros f. rewrite Hvalue by done. eauto. }
  exists funvals', tr'. split; [done|].
  intros k x f Hk Hx Hf.
  destruct (Hin k x f ltac:(lia) Hx Hf) as (f' & Hobj & Hk').
  destruct (Hrows k Hk) as (y & Hy & Hylen).
  assert (y = x) as -> by congruence.
  rewrite Hvalue in Hobj by done. by injection Hobj as <-.
Qed.

End Accumulation.


(** ** The statements at work on the scripted scenario *)

Section Instances.
Import Scenario.
Local Open Scope R_scope.

Lemma negative_seed_rejected_witness :
  let this := configured failing_system {[ "seed" := (-1)%Z ]} ∅ ∅ in
  let e := ValueWasNegative "seed" (-1)
             "CMAESOptimizer::processSettingsBeforeCMAESInit" in
  init this [1; 1] [] = (Throw e, [])
  ∧ (getHasLimits (getOptimizerSystem this) = false
     ∨ within_limits this [1; 1] →
     optimize this 3 [1; 1] [] = (Throw e, [])).
Proof.
  apply (negative_seed_rejected
           (configured failing_system {[ "seed" := (-1)%Z ]} ∅ ∅)
           3 [1; 1] [] (-1)).
  - apply lookup_singleton_eq.
  - lia.
Defined.

Lemma negative_stopMaxFunEvals_rejected_witness :
  let this :=
    configured (Cigtab 2) {[ "stopMaxFunEvals" := (-5)%Z ]} ∅ ∅ in
  optimize this 3 [1; 1] []
  = (Throw (ValueWasNegative "stopMaxFunEvals" (-5)
              "CMAESOptimizer::processSettingsAfterCMAESInit"),
     [] ++ [init_call this [1; 1]]).
Proof.
  apply (negative_stopMaxFunEvals_rejected
           (configured (Cigtab 2) {[ "stopMaxFunEvals" := (-5)%Z ]} ∅ ∅)
           3 [1; 1] [] (-5)).
  - apply lookup_singleton_eq.
  - lia.
  - intros v Hv. cbn in Hv. by rewrite lookup_singleton_ne in Hv.
  - left. reflexivity.
Defined.

Lemma lambda_and_sigma_passed_unchecked_witness :
  let this :=
    configured (Cigtab 2) {[ "lambda" := (-3)%Z ]} {[ "sigma" := -1 ]} ∅ in
  let n := getNumParameters (getOptimizerSystem this) in
  let seed := default 0%Z (advancedIntOptions this !! "seed") in
  let stddev := replicate (Z.to_nat n) (-1) in
  CallInitPara n [1; 1] stddev seed (-3) "writeonly"
    ∈ (init this [1; 1] []).2
  ∧ (∀ dimension xstart stddev' seed' lambda' filename,
       CallInitPara dimension xstart stddev' seed' lambda' filename
         ∈ (init this [1; 1] []).2 →
       stddev' = stddev ∧ lambda' = (-3)%Z)
  ∧ (∀ r tr', init this [1; 1] [] = (Normal r, tr') →
       ∃ evo,
         cmaes_init_final evo = Some r
         ∧ engine evo
           = engine (cmaes_init_para n [1; 1] stddev seed (-3)
                       "writeonly"))
  ∧ (∀ e tr', init this [1; 1] [] = (Throw e, tr') → e = ConfigError).
Proof.
  apply (lambda_and_sigma_passed_unchecked
           (configured (Cigtab 2) {[ "lambda" := (-3)%Z ]}
              {[ "sigma" := -1 ]} ∅)
           [1; 1] [] (-3) (-1)).
  - apply lookup_singleton_eq.
  - lia.
  - apply lookup_singleton_eq.
  - lra.
  - intros v Hv. cbn in Hv. by rewrite lookup_singleton_ne in Hv.
  - intros v Hv. cbn in Hv. by rewrite lookup_singleton_ne in Hv.
Defined.

(** What becomes of such values is up to the library: the scripted engine
    refuses the population size -3 when the initialisation is finalised. *)
Example negative_lambda_refused_by_scripted_engine :
  let this :=
    configured (Cigtab 2) {[ "lambda" := (-3)%Z ]} {[ "sigma" := -1 ]} ∅ in
  ∃ evo,
    init this [1; 1] []
    = (Throw ConfigError, [init_call this [1; 1]; CallInitFinal evo]).
Proof.
  intros this.
  destruct (init_finalises this [1; 1] [])
    as ([settings e] & Hinit & Hengine & _).
  { intros v Hv. cbn in Hv. by rewrite lookup_singleton_ne in Hv. }
  { intros v Hv. cbn in Hv. by rewrite lookup_singleton_ne in Hv. }
  cbn [engine] in Hengine. subst e.
  eexists. rewrite Hinit.
  apply (call_cmaes_init_final_None _ [init_call this [1; 1]]).
  unfold init_para_state, init_numsamples, getAdvancedOption.
  cbn [advancedIntOptions this configured].
  by rewrite lookup_singleton_eq.
Qed.

Lemma first_infeasible_coordinate_reported_witness :
  checkInitialPointIsFeasible failing_optimizer [1; 9] []
  = (Throw (APIArgcheckFailed "CMAESOptimizer" "checkInitialPointIsFeasible"
              1 9 0 5), []).
Proof.
  apply (first_infeasible_coordinate_reported failing_optimizer
           [1; 9] [] 1 9 0 5); try reflexivity.
  - cbn. lia.
  - right. lra.
  - intros j Hj. assert (j = 0%nat) as -> by lia.
    exists 1, 0, 5. cbn. repeat split; lra.
Defined.

Lemma declared_optimum_is_feasible_witness :
  checkInitialPointIsFeasible (plain_optimizer DropWave)
    (optimalParameters DropWave) []
  = (Normal (), []).
Proof.
  apply (declared_optimum_is_feasible (plain_optimizer DropWave) DropWave []).
  - by left.
  - reflexivity.
Defined.

Lemma no_resampling_without_limits_witness :
  CallReSampleSingle 0
    ∉ (optimize (plain_optimizer (Cigtab 2)) 3 [1; 1] []).2.
Proof.
  apply (no_resampling_without_limits (plain_optimizer (Cigtab 2))).
  reflexivity.
Defined.

(** With [resume] set, the distribution is resumed right after the
    initialisation (seen here on a run that is given no round at all). *)
Lemma resuming_run :
  let this :=
    configured (Cigtab 2) {[ "lambda" := 2%Z ]} ∅ {[ "resume" := true ]} in
  ∃ evo,
    optimize this 0 [1; 1] []
    = (Timeout,
       [init_call this [1; 1]; CallInitFinal evo;
        CallResumeDistribution "resumecmaes.dat"]).
Proof.
  intros this. unfold optimize.
  erewrite bind_Normal
    by (apply checkInitialPointIsFeasible_Normal; by left).
  destruct (init_Normal this [1; 1] [])
    as ([settings e] & Hengine & Hinit).
  { intros v Hv. cbn in Hv. by rewrite lookup_singleton_ne in Hv. }
  { intros v Hv. cbn in Hv. by rewrite lookup_singleton_ne in Hv. }
  cbn [engine] in Hengine. subst e.
  set (evo := {| sp := settings; engine := _ |}) in *.
  exists evo.
  assert (Hfinal : cmaes_init_final evo = Some (evo, [0; 0])).
  { subst evo.
    unfold init_para_state, init_numsamples, getAdvancedOption.
    cbn [advancedIntOptions this configured].
    by rewrite lookup_singleton_eq. }
  assert (Hrun : run this 0 [1; 1] []
                 = (Timeout,
                    [init_call this [1; 1]; CallInitFinal evo;
                     CallResumeDistribution "resumecmaes.dat"])).
  { unfold run. erewrite bind_Normal by (by apply Hinit).
    unfold getAdvancedOption. cbn [advancedBoolOptions this configured].
    rewrite lookup_singleton_eq. reflexivity. }
  unfold mbind at 1, M_bind at 1. by rewrite Hrun.
Qed.

Lemma resume_only_on_request_witness :
  let this :=
    configured (Cigtab 2) {[ "lambda" := 2%Z ]} ∅ {[ "resume" := true ]} in
  advancedBoolOptions this !! "resume" = Some true
  ∧ "resumecmaes.dat" = "resumecmaes.dat".
Proof.
  apply (resume_only_on_request
           (configured (Cigtab 2) {[ "lambda" := 2%Z ]} ∅
              {[ "resume" := true ]}) 0 [1; 1] "resumecmaes.dat").
  destruct resuming_run as [evo ->]. cbn [snd].
  rewrite !elem_of_cons. tauto.
Defined.

Lemma sampled_state_lambda : cmaes_Get (cmaes_interface := scripted) sampled_state "lambda" = INR 2.
Proof. cbn. lra. Qed.

Lemma sampled_state_rows (k : nat) :
  (k < 2)%nat →
  ∃ x, rgrgx (cmaes_interface := scripted) sampled_state !! k = Some x ∧ length x = 2%nat
    ∧ (x = [2; 2] ∨ x = [1; 1]).
Proof.
  intros Hk. destruct k as [|[|k]]; [| |lia].
  - exists [2; 2]. auto.
  - exists [1; 1]. auto.
Qed.

Lemma feasible_population_is_kept_witness :
  resample_population (H := scripted) failing_optimizer 3 1
    sampled_state 0 []
  = (Normal sampled_state, []).
Proof.
  apply (feasible_population_is_kept (H := scripted) failing_optimizer 3 1 2
           sampled_state []).
  - apply sampled_state_lambda.
  - lia.
  - lia.
  - intros i Hi. rewrite sampled_state_lambda in Hi. apply INR_lt in Hi.
    destruct (sampled_state_rows i Hi) as (x & Hx & _ & Hcases).
    exists x. split; [done|]. intros j Hj. change (j < 2)%nat in Hj.
    destruct Hcases as [-> | ->]; destruct j as [|[|j]]; try lia.
    + exists 2, 0, 5. cbn. repeat split; lra.
    + exists 2, 0, 5. cbn. repeat split; lra.
    + exists 1, 0, 5. cbn. repeat split; lra.
    + exists 1, 0, 5. cbn. repeat split; lra.
Defined.

Lemma evaluation_fills_funvals_witness :
  let n := Z.to_nat (getNumParameters (getOptimizerSystem boxed_optimizer)) in
  ∃ funvals' tr',
    evaluate_population (H := scripted) boxed_optimizer 3
      sampled_state 0 [0; 0] []
    = (Normal funvals', tr')
    ∧ length funvals' = length [0; 0]
    ∧ (∀ k, (2 ≤ k)%nat → funvals' !! k = [0; 0] !! k)
    ∧ (∀ k x f, (k < 2)%nat →
         rgrgx (cmaes_interface := scripted) sampled_state !! k = Some x →
         [0; 0] !! k = Some f →
         ∃ f',
           objectiveFunc (getOptimizerSystem boxed_optimizer)
             (take n x) true f = Some (0%Z, f')
           ∧ funvals' !! k = Some f').
Proof.
  apply (evaluation_fills_funvals (H := scripted) boxed_optimizer 2 3
           sampled_state
           [0; 0] []).
  - apply sampled_state_lambda.
  - intros k Hk. destruct (sampled_state_rows k Hk) as (x & Hx & Hlen & _).
    exists x. split; [done|]. split; [cbn; lia|]. intros f. cbn. eauto.
  - lia.
  - cbn. lia.
Defined.

Lemma Rosenbrock_values_accumulate_witness :
  let this := plain_optimizer (Rosenbrock 2) in
  let n := Z.to_nat (getNumParameters (getOptimizerSystem this)) in
  ∃ funvals' tr',
    evaluate_population (H := scripted) this 3 sampled_state 0 [7; 0] []
    = (Normal funvals', tr')
    ∧ ∀ k x f, (k < 2)%nat →
        rgrgx (cmaes_interface := scripted) sampled_state !! k = Some x → [7; 0] !! k = Some f →
        funvals' !! k = Some (f + rosenbrock n (take n x)).
Proof.
  apply (Rosenbrock_values_accumulate (H := scripted)
           (plain_optimizer (Rosenbrock 2))
           2 2 3 sampled_state [7; 0] []).
  - reflexivity.
  - unfold INT_MAX. lia.
  - apply sampled_state_lambda.
  - intros k Hk. destruct (sampled_state_rows k Hk) as (x & Hx & Hlen & _).
    exists x. split; [done|]. cbn. lia.
  - lia.
  - cbn. lia.
Defined.

End Instances.


End CMAESOptimizerMore.
